(** * wordgen: the word acquisition, validation and sampling pipeline

    A shallow embedding of [src/wordFilter.ts].  That file holds several
    historical variants of the class [WordFilter]; the ones the properties
    below talk about are

    - the first variant (lines 1-490) and the part-of-speech variant
      (lines 491-1136), whose validators are textually the same
      ([Module Legacy]) and whose second one has an error log
      ([Module PosVariant]);
    - the denylist variant (lines 1308-2097), [Module Denylist].

    JavaScript strings are modelled by [string]; a character stands for a
    code unit in the Latin-1 range (0-255).  Maps that are only read by key
    are [gmap]s, the [Set]s and [Map]s whose iteration order is observed are
    duplicate-free lists in insertion order. *)

From Stdlib Require Import String Ascii List ZArith Bool Lia.
From stdpp Require Import base gmap strings list pretty.

Import ListNotations.
Local Open Scope string_scope.
Local Open Scope list_scope.

(** ** JavaScript string primitives *)

Module JS.

Definition chars (s : string) : list ascii := list_ascii_of_string s.
Definition str (l : list ascii) : string := string_of_list_ascii l.

Definition code (c : ascii) : N := N_of_ascii c.

Definition between (lo hi : N) (c : ascii) : bool :=
  ((lo <=? code c) && (code c <=? hi))%N.

(** [a]-[z] *)
Definition is_lower (c : ascii) : bool := between 97 122 c.

(** The characters [String.prototype.toLowerCase] changes in the Latin-1
    range: [A]-[Z], and the accented capitals U+00C0-U+00DE except the
    multiplication sign U+00D7. *)
Definition is_upper (c : ascii) : bool :=
  between 65 90 c || between 192 214 c || between 216 222 c.

Definition lower_char (c : ascii) : ascii :=
  if is_upper c then ascii_of_N (code c + 32) else c.

(** [s.toLowerCase()] *)
Definition toLowerCase (s : string) : string := str (map lower_char (chars s)).

(** [A]-[Z] for [a]-[z] only: the case folding of a regular expression
    with the [i] flag never identifies an ASCII letter with a character
    outside ASCII. *)
Definition fold_char (c : ascii) : ascii :=
  if is_lower c then ascii_of_N (code c - 32) else c.

(** White space and line terminators of the Latin-1 range: what [trim]
    strips and what [\s] matches. *)
Definition is_space (c : ascii) : bool :=
  between 9 13 c || (code c =? 32)%N || (code c =? 160)%N.

Fixpoint skip_spaces (l : list ascii) : list ascii :=
  match l with
  | c :: l' => if is_space c then skip_spaces l' else l
  | [] => []
  end.

(** [s.trim()] *)
Definition trim (s : string) : string :=
  str (rev (skip_spaces (rev (skip_spaces (chars s))))).

(** [s.length] *)
Definition len (s : string) : nat := String.length s.

(** [s.split('')] *)
Definition letters (s : string) : list ascii := chars s.

Fixpoint starts_with (p l : list ascii) : bool :=
  match p, l with
  | [], _ => true
  | a :: p', b :: l' => if ascii_dec a b then starts_with p' l' else false
  | _ :: _, [] => false
  end.

Fixpoint contains (p l : list ascii) : bool :=
  starts_with p l ||
  match l with
  | [] => false
  | _ :: l' => contains p l'
  end.

(** [s.includes(t)] *)
Definition includes (s t : string) : bool := contains (chars t) (chars s).

(** [s.endsWith(t)] *)
Definition endsWith (s t : string) : bool :=
  starts_with (rev (chars t)) (rev (chars s)).

(** Pieces of [l] between the characters satisfying [sep]; as many pieces
    as separators plus one, empty pieces included. *)
Fixpoint split_at (sep : ascii -> bool) (cur l : list ascii) : list (list ascii) :=
  match l with
  | [] => [rev cur]
  | c :: l' => if sep c then rev cur :: split_at sep [] l'
               else split_at sep (c :: cur) l'
  end.

Definition is_char (a c : ascii) : bool := if ascii_dec a c then true else false.

Definition LF : ascii := ascii_of_N 10.
Definition CR : ascii := ascii_of_N 13.

(** [s.split(',')] *)
Definition split_comma (s : string) : list string :=
  map str (split_at (is_char ",") [] (chars s)).

(** [s.split(/\r?\n/)]: a piece ends at a line feed; a carriage return
    just before that line feed belongs to the separator. *)
Definition chop_cr (l : list ascii) : list ascii :=
  match rev l with
  | c :: r => if is_char CR c then rev r else l
  | [] => l
  end.

Definition split_lines (s : string) : list string :=
  let pieces := split_at (is_char LF) [] (chars s) in
  let n := length pieces in
  map str (imap (fun i p => if (S i <? n)%nat then chop_cr p else p) pieces).

(** Pieces of [l] between the maximal runs of characters satisfying
    [sep]: [s.split(/\s+/)] and [s.split(/[\r\n]+/)]. *)
Fixpoint split_runs (sep : ascii -> bool) (cur l : list ascii) : list (list ascii) :=
  match l with
  | [] => [rev cur]
  | c :: l' =>
      if sep c then
        match l' with
        | d :: _ => if sep d then split_runs sep cur l'
                    else rev cur :: split_runs sep [] l'
        | [] => [rev cur; []]
        end
      else split_runs sep (c :: cur) l'
  end.

Definition split_spaces (s : string) : list string :=
  map str (split_runs is_space [] (chars s)).

Definition split_newlines (s : string) : list string :=
  map str (split_runs (fun c => is_char CR c || is_char LF c) [] (chars s)).

(** [url.split('/').pop()] *)
Definition last_segment (s : string) : string :=
  List.last (map str (split_at (is_char "/") [] (chars s))) "".

Definition nonempty (s : string) : bool := negb (len s =? 0)%nat.

End JS.

Import JS.

(** ** Regular expressions *)

Module Regex.

(** The fragment the program uses: character classes, concatenation and
    repetition, with optional [^] and [$] anchors around the whole
    expression. *)
Inductive regex : Type :=
| Nul
| Eps
| Cls (p : ascii -> bool)
| Cat (r s : regex)
| Alt (r s : regex)
| Star (r : regex).

Fixpoint nullable (r : regex) : bool :=
  match r with
  | Nul => false
  | Eps => true
  | Cls _ => false
  | Cat r s => nullable r && nullable s
  | Alt r s => nullable r || nullable s
  | Star _ => true
  end.

Fixpoint deriv (c : ascii) (r : regex) : regex :=
  match r with
  | Nul => Nul
  | Eps => Nul
  | Cls p => if p c then Eps else Nul
  | Cat r s =>
      if nullable r then Alt (Cat (deriv c r) s) (deriv c s)
      else Cat (deriv c r) s
  | Alt r s => Alt (deriv c r) (deriv c s)
  | Star r => Cat (deriv c r) (Star r)
  end.

(** The whole of [w] is in the language of [r]. *)
Fixpoint matchb (r : regex) (w : list ascii) : bool :=
  match w with
  | [] => nullable r
  | c :: w' => matchb (deriv c r) w'
  end.

Record pattern : Type := Pattern {
  at_start : bool;   (* the expression begins with ^ *)
  body : regex;
  at_end : bool      (* the expression ends with $ *)
}.

Definition any : regex := Cls (fun _ => true).

(** A pattern is found in [w] when [w] is some characters (none under
    [^]), a match of the body, and some characters again (none under
    [$]). *)
Definition search (p : pattern) : regex :=
  Cat (if at_start p then Eps else Star any)
      (Cat (body p) (if at_end p then Eps else Star any)).

(** [p.test(s)], and the truth value of [s.match(p)] *)
Definition test (p : pattern) (s : string) : bool := matchb (search p) (chars s).

(** [r{n,}] *)
Fixpoint at_least (n : nat) (r : regex) : regex :=
  match n with
  | O => Star r
  | S n' => Cat r (at_least n' r)
  end.

(** [r+] *)
Definition plus (r : regex) : regex := at_least 1 r.

(** [[abc]] and [[^abc]] *)
Definition one_of (s : string) : regex :=
  Cls (fun c => existsb (is_char c) (chars s)).
Definition none_of (s : string) : regex :=
  Cls (fun c => negb (existsb (is_char c) (chars s))).

(** A literal word *)
Fixpoint lit_chars (l : list ascii) : regex :=
  match l with
  | [] => Eps
  | c :: l' => Cat (Cls (is_char c)) (lit_chars l')
  end.
Definition lit (s : string) : regex := lit_chars (chars s).

(** A literal word under the [i] flag *)
Fixpoint lit_chars_i (l : list ascii) : regex :=
  match l with
  | [] => Eps
  | c :: l' => Cat (Cls (fun d => is_char (fold_char c) (fold_char d))) (lit_chars_i l')
  end.

(** [new RegExp(src, 'i')] for a source text made of letters with an
    optional final [$], the only shape [ukSpellingPatterns] has. *)
Definition RegExp_i (src : string) : pattern :=
  match rev (chars src) with
  | c :: r =>
      if is_char "$" c then Pattern false (lit_chars_i (rev r)) true
      else Pattern false (lit_chars_i (chars src)) false
  | [] => Pattern false Eps false
  end.

(** [s.match(/[cls]+/g) || []]: the maximal runs of characters of the
    class, from left to right. *)
Fixpoint runs (cls : ascii -> bool) (cur : list ascii) (l : list ascii) : list (list ascii) :=
  match l with
  | [] => match cur with [] => [] | _ => [rev cur] end
  | c :: l' =>
      if cls c then runs cls (c :: cur) l'
      else match cur with
           | [] => runs cls [] l'
           | _ => rev cur :: runs cls [] l'
           end
  end.

End Regex.

Import Regex.

(** ** What the variants share *)

(** [WordValidationResult]: [reason] is present only on a rejection. *)
Record WordValidationResult : Type := {
  isValid : bool;
  reason : option string
}.

Definition accepted : WordValidationResult :=
  {| isValid := true; reason := None |}.
Definition rejected (why : string) : WordValidationResult :=
  {| isValid := false; reason := Some why |}.

(** [new Set(['a', 'e', 'i', 'o', 'u', 'y'])] and [this.vowels.has(c)] *)
Definition vowels : list ascii := chars "aeiouy".
Definition is_vowel (c : ascii) : bool := existsb (is_char c) vowels.

(** [word.split('').some(letter => this.vowels.has(letter))] *)
Definition hasVowel (word : string) : bool := existsb is_vowel (letters word).

(** The [Map] from letter to number of occurrences, in order of first
    occurrence. *)
Fixpoint bump (c : ascii) (m : list (ascii * nat)) : list (ascii * nat) :=
  match m with
  | [] => [(c, 1)]
  | (d, n) :: m' => if is_char c d then (d, S n) :: m' else (d, n) :: bump c m'
  end.

Definition letterCounts (word : string) : list (ascii * nat) :=
  fold_left (fun m c => bump c m) (chars word) [].

(** [/^[a-z]+$/] *)
Definition only_letters : pattern := Pattern true (plus (Cls is_lower)) true.

(** The plain reading of a pattern: [p] occurs somewhere in [s], and [s]
    ends in [p]. *)
Definition occurs_in (p s : string) : Prop :=
  exists u v, chars s = u ++ chars p ++ v.
Definition ends_in (p s : string) : Prop :=
  exists u, chars s = u ++ chars p.

(** The count a [Map] of counts holds for a letter, 0 when it has none. *)
Fixpoint tally (c : ascii) (m : list (ascii * nat)) : nat :=
  match m with
  | [] => 0
  | (d, n) :: m' => if is_char c d then n else tally c m'
  end.

(** The number of occurrences of a letter in a word. *)
Definition occurrences (c : ascii) (word : string) : nat :=
  count_occ ascii_dec (chars word) c.

(** The letters of a word that are vowels and those that are not,
    whatever their case. *)
Definition vowelsOf (word : string) : list ascii :=
  List.filter (fun c => is_vowel (lower_char c)) (letters word).
Definition consonantsOf (word : string) : list ascii :=
  List.filter (fun c => negb (is_vowel (lower_char c))) (letters word).

(** The profanity filter of the package [bad-words] is outside the
    repository: [isProfane] is taken as it comes. *)
Definition ProfanityFilter : Type := string -> bool.

(** ** The first and the part-of-speech variant: the validator
    (lines 149-264 and, word for word, 737-864) *)

Module Legacy.

Definition ukSpellingPatterns : list string :=
  ["our"; "ise"; "yse"; "re$"; "ogue$"; "ae"; "oe"].

(** [Math.max(...counts) >= word.length / 2]; the maximum of no number
    at all is [-Infinity]. *)
Definition hasExcessiveRepetition (word : string) : bool :=
  match map snd (letterCounts word) with
  | [] => false
  | counts => (len word <=? 2 * foldr Nat.max 0 counts)%nat
  end.

(** The characters [toUpperCase] changes in the Latin-1 range. *)
Definition has_upper_form (c : ascii) : bool :=
  between 97 122 c || between 224 246 c || between 248 255 c
  || (code c =? 181)%N || (code c =? 223)%N.

(** [word.toUpperCase() === word] *)
Definition is_own_upper (word : string) : bool :=
  forallb (fun c => negb (has_upper_form c)) (chars word).

(** [consonants > word.length * 0.7] is a comparison of doubles; on the
    lengths the validator lets through (below 10) it is the comparison
    of [10 * consonants] with [7 * length]. *)
Definition isAbbreviation (word : string) : bool :=
  let consonants := length (List.filter (fun c => negb (is_vowel c)) (letters word)) in
  if (7 * len word <? 10 * consonants)%nat then true
  else if (len word <=? 3)%nat && (2 <=? consonants)%nat then true
  else if is_own_upper word && (1 <? len word)%nat then true
  else
    let vowelGroups := runs is_vowel [] (chars word) in
    if (3 <=? length vowelGroups)%nat
       && forallb (fun g => (length g =? 1)%nat) vowelGroups
    then true
    else false.

Definition hasUKSpelling (word : string) : bool :=
  existsb (fun src => test (RegExp_i src) word) ukSpellingPatterns.

Definition uncommonPatterns : list pattern :=
  [ Pattern false (at_least 2 (one_of "qwx")) false;           (* /[qwx]{2,}/ *)
    Pattern false (Cat (one_of "jzx") (one_of "jzx")) false;   (* /[jzx][jzx]/ *)
    Pattern true (one_of "qwxzj") false;                       (* /^[qwxzj]/ *)
    Pattern true (at_least 3 (none_of "aeiouy")) false ].      (* /^[^aeiouy]{3,}/ *)

Definition validateWord (isProfane : ProfanityFilter) (word : string)
  : WordValidationResult :=
  if negb (nonempty word) then rejected "Invalid input"
  else
    let word := trim (toLowerCase word) in
    if negb (test only_letters word) then rejected "Word must contain only letters"
    else if (len word <? 3)%nat || (9 <? len word)%nat
    then rejected "Word must be between 3 and 9 letters"
    else if isProfane word then rejected "Word is inappropriate"
    else if negb (hasVowel word) then rejected "Word must contain at least one vowel"
    else if hasExcessiveRepetition word then rejected "Word has too many repeated letters"
    else if isAbbreviation word
    then rejected "Word appears to be an abbreviation or acronym"
    else if hasUKSpelling word then rejected "UK spelling variant"
    else if existsb (fun p => test p word) uncommonPatterns
    then rejected "Contains uncommon letter patterns"
    else accepted.

End Legacy.

(** ** The denylist variant: the validator (lines 1683-1799) *)

Module DenylistRules.

(** The most frequent letter and its count: the first letter, in order
    of first occurrence, whose count is the largest. *)
Definition mostFrequent (counts : list (ascii * nat)) : option ascii * nat :=
  fold_left (fun best entry =>
               if (snd best <? snd entry)%nat then (Some (fst entry), snd entry)
               else best)
            counts (None, 0).

Definition is_other (maxChar : option ascii) (c : ascii) : bool :=
  match maxChar with
  | Some m => negb (is_char c m)
  | None => true
  end.

Definition hasExcessiveRepetition (word : string) : bool :=
  let counts := letterCounts word in
  let '(maxChar, maxCount) := mostFrequent counts in
  if (len word / 2 <? maxCount)%nat then true
  else if (len word / 2 <=? maxCount)%nat then
    existsb (fun entry => is_other maxChar (fst entry) && (1 <? snd entry)%nat) counts
  else false.

Definition uncommonPatterns : list pattern :=
  [ Pattern false (at_least 2 (one_of "qwxz")) false;            (* /[qwxz]{2,}/ *)
    Pattern false (Cat (one_of "jzxq") (one_of "jzxq")) false;   (* /[jzxq][jzxq]/ *)
    Pattern true (one_of "qwxzj") false;                         (* /^[qwxzj]/ *)
    Pattern true (at_least 3 (none_of "aeiouy")) false;          (* /^[^aeiouy]{3,}/ *)
    Pattern false (at_least 4 (none_of "aeiouy")) false ].       (* /[^aeiouy]{4,}/ *)

Definition hasUncommonLetterPatterns (word : string) : bool :=
  existsb (fun p => test p word) uncommonPatterns.

Definition ukPatterns : list pattern :=
  [ Pattern false (lit "our") true;    (* /our$/ *)
    Pattern false (lit "ise") true;    (* /ise$/ *)
    Pattern false (lit "yse") true;    (* /yse$/ *)
    Pattern false (lit "re") true;     (* /re$/ *)
    Pattern false (lit "ogue") true;   (* /ogue$/ *)
    Pattern false (lit "ae") false;    (* /ae/ *)
    Pattern false (lit "oe") false ].  (* /oe/ *)

Definition isUKSpelling (word : string) : bool :=
  existsb (fun p => test p word) ukPatterns.

(** The validator reads two fields of the object: the set of problem
    words and the flag that says it has been loaded. *)
Definition validateWord (isProfane : ProfanityFilter)
           (problemWordsLoaded : bool) (problemWords : gset string)
           (word : string) : WordValidationResult :=
  if negb (nonempty word) then rejected "Invalid input"
  else
    let word := trim (toLowerCase word) in
    if negb (test only_letters word) then rejected "Word must contain only letters"
    else if (len word <? 3)%nat || (9 <? len word)%nat
    then rejected "Word must be between 3 and 9 letters"
    else if isProfane word then rejected "Word is inappropriate"
    else if negb (hasVowel word) then rejected "Word must contain at least one vowel"
    else if hasExcessiveRepetition word
    then rejected "Word has problematic letter repetition"
    else if problemWordsLoaded && bool_decide (word ∈ problemWords)
    then rejected "Word is in the problematic words list"
    else if isUKSpelling word then rejected "UK spelling variant"
    else if hasUncommonLetterPatterns word
    then rejected "Contains uncommon letter patterns"
    else accepted.

End DenylistRules.

(** ** The world around a [WordFilter] *)

(** A call either returns or throws an [Error] with a message. *)
Inductive outcome (A : Type) : Type :=
| Returned (a : A)
| Thrown (message : string).
Arguments Returned {A} a.
Arguments Thrown {A} message.

(** What [localStorage] holds under a key: the text [fetchWordList] wrote
    there, standing for the object [{data, timestamp}] it parses back to,
    or any other text, which [fetchWordList] cannot use. *)
Inductive Stored : Type :=
| Entry (data : list string) (timestamp : Z)
| Unreadable.

(** How a request ends. *)
Inductive NetOutcome : Type :=
| Aborted                       (* the timeout aborted it: an AbortError *)
| Rejected (message : string)   (* fetch, or reading the body, failed *)
| Responded (ok : bool) (status : nat) (statusText : string) (text : string).

(** What lies outside the program.  [network n url] answers the request
    number [n] (counted from 0), sent to [url], with the time it took in
    milliseconds and its outcome.  [random n] is the draw number [n] of
    [Math.random], read through [Math.floor(Math.random() * k)] as
    [random n mod k].  [JSON.parse] and the extraction of an array of
    words from the value it returns are taken as given: [jsonWords] for
    the denylist variant ([None] when that [try] block throws), and
    [jsonArray] for the part-of-speech variant (the message of the error
    when it throws). *)
Record Env : Type := {
  isProfane : ProfanityFilter;
  network : nat -> string -> Z * NetOutcome;
  random : nat -> nat;
  jsonWords : string -> option (list string);
  jsonArray : string -> string + list string
}.

Definition line_feed : string := str [LF].

(** [word.trim().toLowerCase()] *)
Definition tidy (word : string) : string := toLowerCase (trim word).

(** The plain-text formats: one word per line, separated by commas,
    separated by spaces, or a single word. *)
Definition textWords (text : string) : list string :=
  if includes text line_feed then List.filter nonempty (map tidy (split_lines text))
  else if includes text "," then List.filter nonempty (map tidy (split_comma text))
  else if includes text " " then List.filter nonempty (map tidy (split_spaces text))
  else [tidy text].

(** [words.filter(word => word.length > 0 && /^[a-z]+$/.test(word))] *)
Definition lettersOnly (words : list string) : list string :=
  List.filter (fun word => nonempty word && test only_letters word) words.

(** [`wordlist_${url.split('/').pop()}`] *)
Definition cacheKey (url : string) : string := "wordlist_" +:+ last_segment url.

(** A [Set] of strings in insertion order. *)
Definition set_add (x : string) (set : list string) : list string :=
  if bool_decide (x ∈ set) then set else set ++ [x].

(** [xs.forEach(x => set.add(x))] *)
Definition set_add_all (xs set : list string) : list string :=
  fold_left (fun set x => set_add x set) xs set.

(** [words.filter(word => word.length === length)] *)
Definition ofLength (length : nat) (words : list string) : list string :=
  List.filter (fun word => (len word =? length)%nat) words.

(** [xs.splice(i, 1)] *)
Definition splice1 (i : nat) (xs : list string) : list string :=
  take i xs ++ drop (S i) xs.

(** ** The denylist variant (lines 1308-2097) *)

Module Denylist.

Export DenylistRules.

(** [HAPPY_SOURCES] *)
Definition GOOGLE_COMMON := "https://raw.githubusercontent.com/first20hours/google-10000-english/master/google-10000-english-usa-no-swears.txt".
Definition ENABLE := "https://raw.githubusercontent.com/dolph/dictionary/master/enable1.txt".
Definition SCRABBLE := "https://raw.githubusercontent.com/redbo/scrabble/master/dictionary.txt".
Definition WORD_FREQ := "https://raw.githubusercontent.com/hermitdave/FrequencyWords/master/content/2018/en/en_50k.txt".
Definition SIMPLE_WORDS := "https://raw.githubusercontent.com/taikuukaits/SimpleWords/master/words.txt".
Definition WORDLE_ALLOWED := "https://raw.githubusercontent.com/tabatkins/wordle-list/main/words".
Definition WORDLE_ANSWERS := "https://gist.githubusercontent.com/cfreshman/a03ef2cba789d8cf00c08f767e0fad7b/raw/a9e55d7e0c08100ce62133a1fa0d9c4f0f542f2c/wordle-answers-alphabetical.txt".
Definition WORDNIK := "https://raw.githubusercontent.com/wordnik/wordlist/main/wordlist.txt".
Definition COMMON_MULTI := "https://raw.githubusercontent.com/skedwards88/word_lists/main/compiled/commonWords.json".
Definition SINDRESORHUS := "https://raw.githubusercontent.com/sindresorhus/word-list/main/words.txt".
Definition POWERLANGUAGE := "https://raw.githubusercontent.com/powerlanguage/word-lists/master/word-list-filtered.txt".
Definition BROKENSANDALS := "https://raw.githubusercontent.com/brokensandals/wordlists/master/common-5-letter-words.txt".

(** [Object.entries(SAD_SOURCES)] *)
Definition SAD_SOURCES : list (string * string) :=
  [ ("FIRST_NAMES", "https://raw.githubusercontent.com/dominictarr/random-name/master/first-names.txt");
    ("LAST_NAMES", "https://raw.githubusercontent.com/arineng/arincli/master/lib/last-names.txt");
    ("COUNTRIES", "https://raw.githubusercontent.com/umpirsky/country-list/master/data/en/country.txt");
    ("CITIES", "https://raw.githubusercontent.com/lutangar/cities.json/master/cities.json");
    ("TECH_TERMS", "https://raw.githubusercontent.com/words/technological-terms/master/index.txt");
    ("MEDICAL_TERMS", "https://raw.githubusercontent.com/glutanimate/wordlist-medicaleponyms-en/master/wordlist.txt");
    ("CHEMICAL_ELEMENTS", "https://gist.githubusercontent.com/GoodmanSciences/c2dd862cd38f21b0ad36b8f96b4bf1ee/raw/1d92663004489a5b6926e944c1b3d9ec5c40900e/Periodic%2520Table%2520of%2520Elements.csv");
    ("INTERNET_SLANG", "https://raw.githubusercontent.com/both/language-dataset/master/data/internet-slang.json");
    ("ACRONYMS", "https://raw.githubusercontent.com/stands4/acronym-list/master/acronyms.json");
    ("UNCOMMON_WORDS", "https://raw.githubusercontent.com/skedwards88/word_lists/main/compiled/uncommonWords.json");
    ("OFFENSIVE_WORDS", "https://raw.githubusercontent.com/LDNOOBW/List-of-Dirty-Naughty-Obscene-and-Otherwise-Bad-Words/master/en");
    ("NON_US_WORDS", "https://raw.githubusercontent.com/hyperreality/American-British-English-Translator/master/data/british_spellings.json") ].

(** The fields of the object, and with them the part of the world its
    methods read and write: the local storage, the clock, the requests
    sent so far (oldest first) and the number of random draws made. *)
Record State : Type := {
  problemWords : gset string;
  problemWordsLoaded : bool;
  wordCache : gmap string (list string);
  errorLog : gmap string string;
  localStorage : gmap string Stored;
  now : Z;
  requests : list string;
  draws : nat
}.

Definition with_problemWords (v : gset string) (s : State) : State :=
  {| problemWords := v; problemWordsLoaded := problemWordsLoaded s;
     wordCache := wordCache s; errorLog := errorLog s;
     localStorage := localStorage s; now := now s;
     requests := requests s; draws := draws s |}.
Definition with_problemWordsLoaded (v : bool) (s : State) : State :=
  {| problemWords := problemWords s; problemWordsLoaded := v;
     wordCache := wordCache s; errorLog := errorLog s;
     localStorage := localStorage s; now := now s;
     requests := requests s; draws := draws s |}.
Definition with_wordCache (v : gmap string (list string)) (s : State) : State :=
  {| problemWords := problemWords s; problemWordsLoaded := problemWordsLoaded s;
     wordCache := v; errorLog := errorLog s;
     localStorage := localStorage s; now := now s;
     requests := requests s; draws := draws s |}.
Definition with_errorLog (v : gmap string string) (s : State) : State :=
  {| problemWords := problemWords s; problemWordsLoaded := problemWordsLoaded s;
     wordCache := wordCache s; errorLog := v;
     localStorage := localStorage s; now := now s;
     requests := requests s; draws := draws s |}.
Definition with_localStorage (v : gmap string Stored) (s : State) : State :=
  {| problemWords := problemWords s; problemWordsLoaded := problemWordsLoaded s;
     wordCache := wordCache s; errorLog := errorLog s;
     localStorage := v; now := now s;
     requests := requests s; draws := draws s |}.
Definition with_now (v : Z) (s : State) : State :=
  {| problemWords := problemWords s; problemWordsLoaded := problemWordsLoaded s;
     wordCache := wordCache s; errorLog := errorLog s;
     localStorage := localStorage s; now := v;
     requests := requests s; draws := draws s |}.
Definition with_requests (v : list string) (s : State) : State :=
  {| problemWords := problemWords s; problemWordsLoaded := problemWordsLoaded s;
     wordCache := wordCache s; errorLog := errorLog s;
     localStorage := localStorage s; now := now s;
     requests := v; draws := draws s |}.
Definition with_draws (v : nat) (s : State) : State :=
  {| problemWords := problemWords s; problemWordsLoaded := problemWordsLoaded s;
     wordCache := wordCache s; errorLog := errorLog s;
     localStorage := localStorage s; now := now s;
     requests := requests s; draws := v |}.

(** The fields right after [new WordFilter()], before either of the two
    loads the constructor starts has run. *)
Definition fresh (localStorage : gmap string Stored) (now : Z) : State :=
  {| problemWords := ∅; problemWordsLoaded := false;
     wordCache := ∅; errorLog := ∅;
     localStorage := localStorage; now := now;
     requests := []; draws := 0 |}.

(** The cache is valid for 7 days. *)
Definition freshness : Z := 7 * 24 * 60 * 60 * 1000.

(** The body of a response, by the format the URL announces
    (lines 1584-1643). *)
Definition parseBody (E : Env) (url text : string) : list string :=
  if endsWith url ".json" then
    match jsonWords E text with
    | Some words => words
    | None => List.filter nonempty (map tidy (split_newlines text))
    end
  else if endsWith url ".csv" then
    List.filter nonempty
      (map (fun line => hd "" (split_comma line)) (split_lines text))
  else textWords text.

(** Lines 1561-1670: the request, after the cache had nothing fresh.
    Writing the list to the local storage is taken to succeed. *)
Definition download (E : Env) (url : string) (s : State)
  : outcome (list string) * State :=
  let '(elapsed, answer) := network E (length (requests s)) url in
  let s := with_now (now s + elapsed) (with_requests (requests s ++ [url]) s) in
  match answer with
  | Aborted => (Thrown "Request timed out. Please try again later.", s)
  | Rejected message => (Thrown message, s)
  | Responded ok status statusText text =>
      if negb ok then
        (Thrown ("Failed to fetch word list: " +:+ pretty status +:+ " " +:+ statusText), s)
      else
        let filteredWords := lettersOnly (parseBody E url text) in
        if (length filteredWords =? 0)%nat then
          (Thrown ("No valid words found in the word list from " +:+ url), s)
        else
          (Returned filteredWords,
           with_localStorage
             (<[cacheKey url := Entry filteredWords (now s)]> (localStorage s)) s)
  end.

Definition fetchWordList (E : Env) (url : string) (s : State)
  : outcome (list string) * State :=
  match localStorage s !! cacheKey url with
  | Some (Entry data timestamp) =>
      if (now s - timestamp <? freshness)%Z then (Returned data, s)
      else download E url s
  | Some Unreadable => download E url s
  | None => download E url s
  end.

(** The filter both branches of [preloadWordCache] apply. *)
Definition prefilter (words : list string) : list string :=
  List.filter (fun word =>
            negb ((len word <? 3)%nat || (9 <? len word)%nat)
            && hasVowel word
            && negb (hasExcessiveRepetition word)) words.

Definition preloadWordCache (E : Env) (s : State) : State :=
  match fetchWordList E GOOGLE_COMMON s with
  | (Returned commonWords, s) =>
      with_wordCache (<["google_common" := prefilter commonWords]> (wordCache s)) s
  | (Thrown message, s) =>
      let s := with_errorLog (<["google_common" := message]> (errorLog s)) s in
      match fetchWordList E ENABLE s with
      | (Returned enableWords, s) =>
          with_wordCache (<["google_common" := prefilter enableWords]> (wordCache s)) s
      | (Thrown _, s) => s
      end
  end.

(** The words one sad source contributes (lines 1409-1429). *)
Definition processWords (key : string) (words : list string) : list string :=
  let keep := fun word => (3 <=? len word)%nat && test only_letters word in
  let processedWords :=
    if bool_decide (key = "CITIES") || bool_decide (key = "COUNTRIES") then
      map toLowerCase (List.filter keep (concat (map split_spaces words)))
    else List.filter keep words in
  map toLowerCase processedWords.

Definition add_all (words : list string) (set : gset string) : gset string :=
  fold_left (fun set word => {[word]} ∪ set) words set.

(** One of the fetches [loadProblemWords] starts.  They are run here one
    after the other, in the order they are started. *)
Definition loadSadSource (E : Env) (s : State) (entry : string * string) : State :=
  match fetchWordList E (snd entry) s with
  | (Returned words, s) =>
      with_problemWords (add_all (processWords (fst entry) words) (problemWords s)) s
  | (Thrown _, s) => s
  end.

Definition baseLetters : list ascii := chars "abcdefghijklmnoprstuvwxyz".

(** [baseLetters.charAt(Math.floor(Math.random() * baseLetters.length))] *)
Definition randomLetter (E : Env) (s : State) : ascii * State :=
  (nth (random E (draws s) mod length baseLetters) baseLetters "a"%char,
   with_draws (S (draws s)) s).

Fixpoint randomBase (E : Env) (i : nat) (base : list ascii) (s : State)
  : list ascii * State :=
  match i with
  | O => (base, s)
  | S i' => let '(c, s) := randomLetter E s in randomBase E i' (base ++ [c]) s
  end.

(** One sample: a random base of [i] letters before the suffix. *)
Definition addSample (E : Env) (suffix : string) (i : nat) (s : State) : State :=
  let '(base, s) := randomBase E i [] s in
  with_problemWords ({[str base +:+ suffix]} ∪ problemWords s) s.

(** The three loops of [addManualPatterns] have one shape. *)
Definition addSuffixes (E : Env) (suffixes : list string) (lengths : list nat)
           (samples : nat) (s : State) : State :=
  fold_left (fun s suffix =>
    fold_left (fun s i =>
      fold_left (fun s _ => addSample E suffix i s) (seq 0 samples) s)
      lengths s)
    suffixes s.

Definition addManualPatterns (E : Env) (s : State) : State :=
  let s := addSuffixes E ["ese"; "ian"; "ish"; "ean"; "ese"; "ite"; "can"; "ani"]
                       [3; 4; 5; 6]%nat 5 s in
  let s := addSuffixes E ["ium"; "ide"; "ate"; "ite"; "ene"; "ase"; "one"; "ane";
                          "ene"; "yne"; "ol"; "yl"; "ose"]
                       [3; 4; 5]%nat 3 s in
  addSuffixes E ["land"; "ville"; "town"; "burg"; "berg"; "shire"; "port"; "ford";
                 "ham"; "ton"]
              [3; 4; 5]%nat 3 s.

Definition loadProblemWords (E : Env) (s : State) : State :=
  let s := fold_left (loadSadSource E) SAD_SOURCES s in
  let s := addManualPatterns E s in
  with_problemWordsLoaded true s.

(** [if (!this.problemWordsLoaded) await this.loadProblemWords()].
    Every load ends by setting the flag, and the constructor starts one
    (lines 1389-1397): a call that finds the flag false finds the
    [loadProblemWords] of the constructor still pending and, started
    after it, its [preloadWordCache].  The call then starts a load of its
    own and waits for it; the two loads of the constructor, started
    before it, complete during that wait.  The three are run here one
    after the other, in the order they are started. *)
Definition withProblemWords (E : Env) (s : State) : State :=
  if problemWordsLoaded s then s
  else loadProblemWords E (preloadWordCache E (loadProblemWords E s)).

(** [this.validateWord(word)] on the object in state [s] *)
Definition validate (E : Env) (s : State) (word : string) : WordValidationResult :=
  validateWord (isProfane E) (problemWordsLoaded s) (problemWords s) word.

(** The [switch] of [fetchWordListBySource] *)
Definition urlOf (source : string) : string :=
  if bool_decide (source = "google_common") then GOOGLE_COMMON
  else if bool_decide (source = "enable") then ENABLE
  else if bool_decide (source = "scrabble") then SCRABBLE
  else if bool_decide (source = "word_freq") then WORD_FREQ
  else if bool_decide (source = "simple_words") then SIMPLE_WORDS
  else if bool_decide (source = "wordle_answers") then WORDLE_ANSWERS
  else if bool_decide (source = "wordle_allowed") then WORDLE_ALLOWED
  else if bool_decide (source = "wordnik") then WORDNIK
  else if bool_decide (source = "common_multi") then COMMON_MULTI
  else if bool_decide (source = "sindresorhus") then SINDRESORHUS
  else if bool_decide (source = "powerlanguage") then POWERLANGUAGE
  else if bool_decide (source = "brokensandals") then BROKENSANDALS
  else GOOGLE_COMMON.

Definition fetchWordListBySource (E : Env) (source : string) (s : State)
  : outcome (list string) * State :=
  match wordCache s !! source with
  | Some cached => (Returned cached, s)
  | None =>
      match fetchWordList E (urlOf source) s with
      | (Returned words, s) =>
          let s := with_wordCache (<[source := words]> (wordCache s)) s in
          let s := with_errorLog (delete source (errorLog s)) s in
          (Returned words, s)
      | (Thrown message, s) =>
          let s := with_errorLog (<[source := message]> (errorLog s)) s in
          match wordCache s !! "google_common" with
          | Some commonWords =>
              if bool_decide (source = "google_common") then (Thrown message, s)
              else
                (Returned commonWords,
                 with_wordCache (<[source := commonWords]> (wordCache s)) s)
          | None => (Thrown message, s)
          end
      end
  end.

(** The loop that draws without replacement (lines 1991-1995 and
    2082-2086).  Every turn removes a word from [availableWords];
    [fuel] bounds the number of turns. *)
Fixpoint drawWords (E : Env) (fuel count : nat)
         (resultWords availableWords : list string) (s : State)
  : list string * State :=
  match fuel with
  | O => (resultWords, s)
  | S fuel' =>
      if (length resultWords <? count)%nat && (0 <? length availableWords)%nat then
        let randomIndex := random E (draws s) mod length availableWords in
        let s := with_draws (S (draws s)) s in
        drawWords E fuel' count
                  (set_add (nth randomIndex availableWords "") resultWords)
                  (splice1 randomIndex availableWords) s
      else (resultWords, s)
  end.

(** The sampling step (lines 1981-1997 and 2069-2091): the pool itself
    when it has no more than [count] words, and [count] draws
    otherwise. *)
Definition sample (E : Env) (validWords : list string) (count : nat) (s : State)
  : list string * State :=
  if (length validWords <=? count)%nat then (validWords, s)
  else drawWords E (length validWords) count [] validWords s.

Definition generateWords (E : Env) (length : nat) (source : string) (count : nat)
           (s : State) : outcome (list string) * State :=
  let s := withProblemWords E s in
  match fetchWordListBySource E source s with
  | (Thrown message, s) => (Thrown message, s)
  | (Returned wordsList, s) =>
      let wordsList := ofLength length wordsList in
      if (List.length wordsList =? 0)%nat then
        (Thrown ("No words of length " +:+ pretty length
                 +:+ " found in the selected source."), s)
      else
        let validWords := List.filter (fun word => isValid (validate E s word)) wordsList in
        if (List.length validWords =? 0)%nat then
          (Thrown ("No valid words of length " +:+ pretty length
                   +:+ " found in the selected source."), s)
        else
          let '(words, s) := sample E validWords count s in
          (Returned words, s)
  end.

(** [WordGenerationResult] *)
Record WordGenerationResult : Type := {
  words : list string;
  failedSources : list string
}.

(** What the loop over the sources has gathered so far. *)
Record Gathered : Type := {
  allWords : list string;
  failed : list string;
  succeeded : list string
}.

(** One turn of the loop over the sources (lines 2032-2052). *)
Definition gatherSource (E : Env) (length : nat) (acc : Gathered * State)
           (source : string) : Gathered * State :=
  let '(g, s) := acc in
  match fetchWordListBySource E source s with
  | (Returned sourceWords, s) =>
      let validLengthWords := ofLength length sourceWords in
      if (0 <? List.length validLengthWords)%nat then
        ({| allWords := set_add_all validLengthWords (allWords g);
            failed := failed g;
            succeeded := succeeded g ++ [source] |}, s)
      else
        ({| allWords := allWords g;
            failed := failed g ++ [source];
            succeeded := succeeded g |}, s)
  | (Thrown _, s) =>
      ({| allWords := allWords g;
          failed := failed g ++ [source];
          succeeded := succeeded g |}, s)
  end.

Definition gather (E : Env) (length : nat) (sources : list string) (s : State)
  : Gathered * State :=
  fold_left (gatherSource E length) sources
            ({| allWords := []; failed := []; succeeded := [] |}, s).

Definition couldNotFetch : string :=
  "Could not fetch words from any of the selected sources. Please try again later.".

Definition noValidWords (length : nat) : string :=
  "No valid words of length " +:+ pretty length +:+ " found in the selected sources.".

Definition generateWordsFromMultipleSources
           (E : Env) (length : nat) (sources : list string) (count : nat)
           (s : State) : outcome WordGenerationResult * State :=
  if (List.length sources =? 0)%nat then
    (Thrown "At least one word source must be selected", s)
  else
    let s := withProblemWords E s in
    let '(g, s) := gather E length sources s in
    let validWords := List.filter (fun word => isValid (validate E s word)) (allWords g) in
    if (List.length validWords =? 0)%nat then
      if (List.length (failed g) =? List.length sources)%nat
      then (Thrown couldNotFetch, s)
      else (Thrown (noValidWords length), s)
    else
      let '(words, s) := sample E validWords count s in
      (Returned {| words := words; failedSources := failed g |}, s).

(** *** The turns of the loop, for the statements below *)

(** Each source with the state in which its turn of the loop starts. *)
Fixpoint turns (E : Env) (sources : list string) (s : State) : list (string * State) :=
  match sources with
  | [] => []
  | source :: rest =>
      (source, s) :: turns E rest (snd (fetchWordListBySource E source s))
  end.

(** What [fetchWordListBySource] does in a turn. *)
Definition fetched (E : Env) (turn : string * State) : outcome (list string) :=
  fst (fetchWordListBySource E (fst turn) (snd turn)).





(** The turn puts [word] in the pool. *)
Definition yields (E : Env) (length : nat) (turn : string * State) (word : string)
  : Prop :=
  exists sourceWords,
    fetched E turn = Returned sourceWords
    /\ word ∈ sourceWords /\ len word = length.

(** The test the loop makes on the list a turn fetched. *)
Definition contributes (E : Env) (length : nat) (turn : string * State) : bool :=
  match fetched E turn with
  | Returned sourceWords => (0 <? List.length (ofLength length sourceWords))%nat
  | Thrown _ => false
  end.

(** *** What a load changes, for the statements below *)

(** Between [s] and [s1] the set of problem words has only grown, the
    requests [sent] were sent and [drawn] random numbers drawn; the
    flag, the in-memory cache and the error log are as they were. *)
Definition loaded_more (sent : list string) (drawn : nat) (s s1 : State) : Prop :=
  problemWords s ⊆ problemWords s1
  /\ problemWordsLoaded s1 = problemWordsLoaded s
  /\ wordCache s1 = wordCache s
  /\ errorLog s1 = errorLog s
  /\ requests s1 = requests s ++ sent
  /\ draws s1 = draws s + drawn.

(** *** The life of an object, for the statements below *)

(** What can happen to an object, and to the world around it, between
    two calls of [validateWord], a load of the problem words apart: a
    fetch, the preloading, a generation on an object whose problem words
    are loaded, the passing of time, a change of the local storage made
    elsewhere. *)
Inductive quiet (E : Env) : State -> State -> Prop :=
| quiet_fetchWordList (url : string) (s : State) :
    quiet E s (snd (fetchWordList E url s))
| quiet_fetchWordListBySource (source : string) (s : State) :
    quiet E s (snd (fetchWordListBySource E source s))
| quiet_preloadWordCache (s : State) :
    quiet E s (preloadWordCache E s)
| quiet_generateWords (length : nat) (source : string) (count : nat) (s : State) :
    problemWordsLoaded s = true ->
    quiet E s (snd (generateWords E length source count s))
| quiet_generateWordsFromMultipleSources
    (length : nat) (sources : list string) (count : nat) (s : State) :
    problemWordsLoaded s = true ->
    quiet E s (snd (generateWordsFromMultipleSources E length sources count s))
| quiet_clock (t : Z) (s : State) :
    quiet E s (with_now t s)
| quiet_storage (stored : gmap string Stored) (s : State) :
    quiet E s (with_localStorage stored s).

(** Any number of such steps. *)
Inductive quietly (E : Env) : State -> State -> Prop :=
| quietly_refl (s : State) : quietly E s s
| quietly_step (s s1 s2 : State) :
    quiet E s s1 -> quietly E s1 s2 -> quietly E s s2.

End Denylist.

(** ** The part-of-speech variant: fetching (lines 510-735 and 920-995) *)

Module PosVariant.

(** [WORD_CORPORA] *)
Definition COMMON_WORDS := "https://raw.githubusercontent.com/first20hours/google-10000-english/master/google-10000-english-usa-no-swears.txt".
Definition NOUNS := "https://raw.githubusercontent.com/sindresorhus/word-list/main/words.txt".
Definition VERBS := "https://raw.githubusercontent.com/sindresorhus/word-list/main/words.txt".
Definition ADJECTIVES := "https://raw.githubusercontent.com/sindresorhus/word-list/main/words.txt".
Definition ADVERBS := "https://raw.githubusercontent.com/sindresorhus/word-list/main/words.txt".
Definition GSL_WORDS := "https://raw.githubusercontent.com/openvocabulary/gsl/master/gsl.txt".
Definition SCOWL_COMMON := "https://raw.githubusercontent.com/en-wl/wordlist/master/scowl/final/english-words.35".
Definition BNC_COMMON := "https://raw.githubusercontent.com/first20hours/google-10000-english/master/20k.txt".
Definition FALLOUT_WORDS := "https://raw.githubusercontent.com/nathanlesage/academics/master/randomdata/fallout-terminal-words.txt".

Definition ending (s : string) : pattern := Pattern false (lit s) true.

(** [WORD_CATEGORIES] *)
Definition NOUN_PATTERNS : list pattern :=
  [ Pattern false (Cat (none_of "aeiou") (lit "tion")) true;
    ending "ment"; ending "ence"; ending "ance"; ending "ity"; ending "ness";
    ending "ship"; ending "dom"; ending "hood"; ending "ism" ].
Definition VERB_PATTERNS : list pattern :=
  [ Pattern false (Cat (one_of "aeiou") (lit "te")) true;
    ending "ize"; ending "ise"; ending "ify"; ending "ate";
    Pattern true (Cat (lit "re") (none_of "aeiou")) false;
    Pattern false (Cat (one_of "aeiou") (lit "n")) true;
    Pattern false (Cat (none_of "aeiou") (lit "er")) true ].
Definition ADJECTIVE_PATTERNS : list pattern :=
  [ ending "ful"; ending "ous"; ending "ive"; ending "ble"; ending "cal";
    ending "ary"; ending "ic"; ending "al"; ending "ish"; ending "like";
    ending "ly" ].
Definition ADVERB_PATTERNS : list pattern := [ ending "ly" ].

Record Categories : Type := {
  isNoun : bool; isVerb : bool; isAdjective : bool; isAdverb : bool
}.

Definition detectWordCategory (word : string) : Categories :=
  {| isNoun := existsb (fun p => test p word) NOUN_PATTERNS;
     isVerb := existsb (fun p => test p word) VERB_PATTERNS;
     isAdjective := existsb (fun p => test p word) ADJECTIVE_PATTERNS;
     isAdverb := existsb (fun p => test p word) ADVERB_PATTERNS |}.

Record State : Type := {
  wordCache : gmap string (list string);
  errorLog : gmap string string;
  localStorage : gmap string Stored;
  now : Z;
  requests : list string
}.

Definition with_wordCache (v : gmap string (list string)) (s : State) : State :=
  {| wordCache := v; errorLog := errorLog s; localStorage := localStorage s;
     now := now s; requests := requests s |}.
Definition with_errorLog (v : gmap string string) (s : State) : State :=
  {| wordCache := wordCache s; errorLog := v; localStorage := localStorage s;
     now := now s; requests := requests s |}.
Definition with_localStorage (v : gmap string Stored) (s : State) : State :=
  {| wordCache := wordCache s; errorLog := errorLog s; localStorage := v;
     now := now s; requests := requests s |}.
Definition sent (url : string) (elapsed : Z) (s : State) : State :=
  {| wordCache := wordCache s; errorLog := errorLog s;
     localStorage := localStorage s;
     now := now s + elapsed; requests := requests s ++ [url] |}.

Definition fresh (localStorage : gmap string Stored) (now : Z) : State :=
  {| wordCache := ∅; errorLog := ∅; localStorage := localStorage;
     now := now; requests := [] |}.

(** The cache is valid for 24 hours. *)
Definition freshness : Z := 24 * 60 * 60 * 1000.

(** Lines 624-693.  The entries of a JSON array are given as the text
    the later [map] reads out of them. *)
Definition parseBody (E : Env) (url text : string) : outcome (list string) :=
  if endsWith url ".json" then
    match jsonArray E text with
    | inr [] =>
        Thrown "Invalid JSON format in word list: Could not find word array in JSON"
    | inr words => Returned words
    | inl message => Thrown ("Invalid JSON format in word list: " +:+ message)
    end
  else Returned (textWords text).

Definition download (E : Env) (url : string) (s : State)
  : outcome (list string) * State :=
  let '(elapsed, answer) := network E (length (requests s)) url in
  let s := sent url elapsed s in
  match answer with
  | Aborted => (Thrown "Request timed out. Please try again later.", s)
  | Rejected message => (Thrown message, s)
  | Responded ok status statusText text =>
      if negb ok then
        (Thrown ("Failed to fetch word list: " +:+ pretty status +:+ " " +:+ statusText), s)
      else
        match parseBody E url text with
        | Thrown message => (Thrown message, s)
        | Returned words =>
            let filteredWords := lettersOnly (map tidy words) in
            if (length filteredWords =? 0)%nat then
              (Thrown ("No valid words found in the word list from " +:+ url), s)
            else
              (Returned filteredWords,
               with_localStorage
                 (<[cacheKey url := Entry filteredWords (now s)]> (localStorage s)) s)
        end
  end.

Definition fetchWordList (E : Env) (url : string) (s : State)
  : outcome (list string) * State :=
  match localStorage s !! cacheKey url with
  | Some (Entry data timestamp) =>
      if (now s - timestamp <? freshness)%Z then (Returned data, s)
      else download E url s
  | Some Unreadable => download E url s
  | None => download E url s
  end.

Definition preloadWordCache (E : Env) (s : State) : State :=
  match fetchWordList E COMMON_WORDS s with
  | (Returned commonWords, s) =>
      with_wordCache (<["common" := commonWords]> (wordCache s)) s
  | (Thrown message, s) =>
      with_errorLog (<["common" := message]> (errorLog s)) s
  end.

Definition urlOf (source : string) : string :=
  if bool_decide (source = "common") then COMMON_WORDS
  else if bool_decide (source = "nouns") then NOUNS
  else if bool_decide (source = "verbs") then VERBS
  else if bool_decide (source = "adjectives") then ADJECTIVES
  else if bool_decide (source = "adverbs") then ADVERBS
  else if bool_decide (source = "gsl") then GSL_WORDS
  else if bool_decide (source = "scowl") then SCOWL_COMMON
  else if bool_decide (source = "bnc") then BNC_COMMON
  else if bool_decide (source = "fallout") then FALLOUT_WORDS
  else COMMON_WORDS.

Definition isCategory (source : string) : bool :=
  bool_decide (source = "nouns") || bool_decide (source = "verbs")
  || bool_decide (source = "adjectives") || bool_decide (source = "adverbs").

Definition inCategory (source word : string) : bool :=
  let categories := detectWordCategory word in
  if bool_decide (source = "nouns") then isNoun categories
  else if bool_decide (source = "verbs") then isVerb categories
  else if bool_decide (source = "adjectives") then isAdjective categories
  else if bool_decide (source = "adverbs") then isAdverb categories
  else true.

Definition fetchWordListBySource (E : Env) (source : string) (s : State)
  : outcome (list string) * State :=
  match wordCache s !! source with
  | Some cached => (Returned cached, s)
  | None =>
      let url := urlOf source in
      match fetchWordList E url s with
      | (Returned wordsList, s) =>
          if isCategory source && bool_decide (url = NOUNS) then
            let filteredWords := List.filter (inCategory source) wordsList in
            (Returned filteredWords,
             with_wordCache (<[source := filteredWords]> (wordCache s)) s)
          else
            (Returned wordsList,
             with_wordCache (<[source := wordsList]> (wordCache s)) s)
      | (Thrown message, s) =>
          (Thrown message,
           with_errorLog (<[source := message]> (errorLog s)) s)
      end
  end.

End PosVariant.

(** ** A concrete world, for the examples *)

Module Scenario.

(** The list of first names and two of the happy sources answer; every
    other address answers 404. *)
Definition answers (n : nat) (url : string) : Z * NetOutcome :=
  if bool_decide (url = Denylist.GOOGLE_COMMON) then
    (120%Z, Responded true 200 "OK" "apple
mango
grape")
  else if bool_decide (url = Denylist.SCRABBLE) then
    (95%Z, Responded true 200 "OK" "eat
zebra
candy")
  else if bool_decide (url = "https://raw.githubusercontent.com/dominictarr/random-name/master/first-names.txt") then
    (80%Z, Responded true 200 "OK" "Mary
John")
  else (60%Z, Responded false 404 "Not Found" "").

Definition world : Env :=
  {| isProfane := fun _ => false;
     network := answers;
     random := fun n => n;
     jsonWords := fun _ => None;
     jsonArray := fun _ => inl "Unexpected end of JSON input" |}.

(** A new object on an empty local storage. *)
Definition created : Denylist.State := Denylist.fresh ∅ 0.

(** The object once the two loads its constructor starts have run, in
    evaluated form. *)
Definition started : Denylist.State :=
  Eval vm_compute in
    Denylist.preloadWordCache world (Denylist.loadProblemWords world created).

(** An object whose problem words are loaded (none was found) and whose
    in-memory cache holds a list for "google_common". *)
Definition cached : Denylist.State :=
  Denylist.with_problemWordsLoaded true
    (Denylist.with_wordCache {["google_common" := ["apple"; "mango"; "grape"]]} created).







End Scenario.

(** * Properties *)

(** ** Strings *)

Section StringFacts.

Lemma chars_str (l : list ascii) : chars (str l) = l.
Proof. apply list_ascii_of_string_of_list_ascii. Qed.

Lemma str_chars (s : string) : str (chars s) = s.
Proof. apply string_of_list_ascii_of_string. Qed.

Lemma len_chars (s : string) : len s = length (chars s).
Proof. unfold len, chars. induction s; simpl; congruence. Qed.

Lemma is_char_true (a c : ascii) : is_char a c = true <-> a = c.
Proof. unfold is_char. destruct (ascii_dec a c); split; congruence. Qed.

Lemma is_char_refl (a : ascii) : is_char a a = true.
Proof. by apply is_char_true. Qed.

Lemma starts_with_spec (p l : list ascii) :
  starts_with p l = true <-> exists v, l = p ++ v.
Proof.
  revert l. induction p as [|a p IH]; intros l; simpl.
  - split; eauto.
  - destruct l as [|b l].
    + split; [discriminate | intros [v Hv]; discriminate].
    + destruct (ascii_dec a b) as [->|Hne].
      * rewrite IH. split; intros [v Hv]; exists v; simpl in *; congruence.
      * split; [discriminate | intros [v Hv]; simpl in Hv; congruence].
Qed.

Lemma contains_spec (p l : list ascii) :
  contains p l = true <-> exists u v, l = u ++ p ++ v.
Proof.
  induction l as [|b l IH].
  - simpl. rewrite orb_false_r, starts_with_spec. split.
    + intros [v Hv]. exists [], v. done.
    + intros (u & v & H). destruct u; simpl in H.
      * eauto.
      * discriminate.
  - simpl. rewrite orb_true_iff, starts_with_spec, IH. split.
    + intros [[v Hv]|(u & v & H)].
      * exists [], v. done.
      * exists (b :: u), v. simpl. congruence.
    + intros (u & v & H). destruct u as [|c u]; simpl in H.
      * left. eauto.
      * right. exists u, v. congruence.
Qed.

Lemma ends_with_spec (p l : list ascii) :
  starts_with (rev p) (rev l) = true <-> exists u, l = u ++ p.
Proof.
  rewrite starts_with_spec. split.
  - intros [v Hv]. exists (rev v).
    rewrite <- (rev_involutive l), Hv, rev_app_distr, rev_involutive. done.
  - intros [u ->]. exists (rev u). apply rev_app_distr.
Qed.

(** Every property of a character can be checked on the 256 of them. *)
Lemma all_chars (P : ascii -> bool) :
  forallb P (map ascii_of_nat (seq 0 256)) = true -> forall c, P c = true.
Proof.
  intros H c. rewrite forallb_forall in H. apply H.
  rewrite <- (ascii_nat_embedding c). apply in_map, in_seq.
  pose proof (nat_ascii_bounded c). lia.
Qed.

Lemma skip_spaces_shorter (l : list ascii) :
  skip_spaces l = l \/ length (skip_spaces l) < length l.
Proof.
  induction l as [|c l IH]; simpl; [by left|].
  destruct (is_space c); [|by left].
  right. destruct IH as [-> | IH]; lia.
Qed.

Lemma trim_shorter (s : string) :
  trim s = s \/ len (trim s) < len s.
Proof.
  unfold trim. rewrite !len_chars, chars_str, length_rev.
  destruct (skip_spaces_shorter (chars s)) as [E1 | H1].
  - rewrite E1.
    destruct (skip_spaces_shorter (rev (chars s))) as [E2 | H2].
    + left. rewrite E2, rev_involutive. apply str_chars.
    + right. rewrite length_rev in H2. done.
  - right.
    destruct (skip_spaces_shorter (rev (skip_spaces (chars s)))) as [E2 | H2].
    + rewrite E2, length_rev. done.
    + rewrite length_rev in H2. lia.
Qed.

Lemma len_toLowerCase (s : string) : len (toLowerCase s) = len s.
Proof. unfold toLowerCase. by rewrite !len_chars, chars_str, length_map. Qed.

End StringFacts.

(** ** Regular expressions: the matcher computes the language *)

Section RegexFacts.

Lemma matchb_Nul (w : list ascii) : matchb Nul w = false.
Proof. induction w; simpl; auto. Qed.

Lemma matchb_Eps (w : list ascii) : matchb Eps w = true <-> w = [].
Proof.
  destruct w; simpl; [done|]. rewrite matchb_Nul. split; discriminate.
Qed.

Lemma matchb_Alt (r s : regex) (w : list ascii) :
  matchb (Alt r s) w = matchb r w || matchb s w.
Proof. revert r s. induction w as [|c w IH]; intros r s; simpl; auto. Qed.

Lemma matchb_Cat (r s : regex) (w : list ascii) :
  matchb (Cat r s) w = true <->
  exists u v, w = u ++ v /\ matchb r u = true /\ matchb s v = true.
Proof.
  revert r. induction w as [|c w IH]; intros r.
  - simpl. rewrite andb_true_iff. split.
    + intros [Hr Hs]. exists [], []. done.
    + intros (u & v & H & Hu & Hv).
      symmetry in H. apply app_eq_nil in H as [-> ->]. done.
  - simpl. destruct (nullable r) eqn:Hn.
    + rewrite matchb_Alt, orb_true_iff, IH. split.
      * intros [(u & v & -> & Hu & Hv) | Hs].
        -- exists (c :: u), v. done.
        -- exists [], (c :: w). done.
      * intros (u & v & H & Hu & Hv). destruct u as [|d u]; simpl in H.
        -- right. subst v. done.
        -- left. injection H as -> ->. exists u, v. done.
    + rewrite IH. split.
      * intros (u & v & -> & Hu & Hv). exists (c :: u), v. done.
      * intros (u & v & H & Hu & Hv). destruct u as [|d u]; simpl in H.
        -- simpl in Hu. congruence.
        -- injection H as -> ->. exists u, v. done.
Qed.

Lemma matchb_Cls (p : ascii -> bool) (w : list ascii) :
  matchb (Cls p) w = true <-> exists c, w = [c] /\ p c = true.
Proof.
  destruct w as [|c w]; simpl.
  - split; [discriminate | intros (c & H & _); discriminate].
  - destruct (p c) eqn:Hp.
    + rewrite matchb_Eps. split.
      * intros ->. eauto.
      * intros (d & H & _). congruence.
    + rewrite matchb_Nul. split; [discriminate|].
      intros (d & H & Hd). congruence.
Qed.

Lemma matchb_Star_any (w : list ascii) : matchb (Star any) w = true.
Proof.
  induction w as [|c w IH]; [done|].
  simpl. apply matchb_Cat. exists [], w. done.
Qed.

Lemma matchb_Star_Cls (p : ascii -> bool) (w : list ascii) :
  matchb (Star (Cls p)) w = true <-> forallb p w = true.
Proof.
  induction w as [|c w IH]; [done|].
  simpl. rewrite matchb_Cat. destruct (p c); simpl.
  - rewrite <- IH. split.
    + intros (u & v & -> & Hu & Hv). apply matchb_Eps in Hu as ->. done.
    + intros H. exists [], w. done.
  - split; [|discriminate].
    intros (u & v & _ & Hu & _). rewrite matchb_Nul in Hu. discriminate.
Qed.

Lemma matchb_lit (p w : list ascii) : matchb (lit_chars p) w = true <-> w = p.
Proof.
  revert w. induction p as [|a p IH]; intros w; simpl lit_chars.
  - apply matchb_Eps.
  - rewrite matchb_Cat. split.
    + intros (u & v & -> & Hu & Hv).
      apply matchb_Cls in Hu as (c & -> & Hc).
      apply is_char_true in Hc as ->. apply IH in Hv as ->. done.
    + intros ->. exists [a], p. split; [done|]. split.
      * apply matchb_Cls. exists a. by rewrite is_char_refl.
      * by apply IH.
Qed.

Lemma matchb_lit_i (p w : list ascii) :
  matchb (lit_chars_i p) w = true <-> map fold_char w = map fold_char p.
Proof.
  revert w. induction p as [|a p IH]; intros w; simpl lit_chars_i.
  - rewrite matchb_Eps. destruct w; simpl; split; congruence.
  - rewrite matchb_Cat. split.
    + intros (u & v & -> & Hu & Hv).
      apply matchb_Cls in Hu as (c & -> & Hc).
      apply is_char_true in Hc. apply IH in Hv. simpl. congruence.
    + intros H. destruct w as [|c w]; simpl in H; [discriminate|].
      injection H as Hc Hw. exists [c], w. split; [done|]. split.
      * apply matchb_Cls. exists c. split; [done|]. by apply is_char_true.
      * by apply IH.
Qed.

(** A pattern without anchors is found where its body is, with anything
    before and after. *)
Lemma test_anywhere (r : regex) (s : string) :
  test (Pattern false r false) s = true <->
  exists u m v, chars s = u ++ m ++ v /\ matchb r m = true.
Proof.
  unfold test, search. simpl. rewrite matchb_Cat. split.
  - intros (u & x & -> & _ & Hx). apply matchb_Cat in Hx as (m & v & -> & Hm & _).
    eauto.
  - intros (u & m & v & -> & Hm). exists u, (m ++ v).
    split; [done|]. split; [apply matchb_Star_any|].
    apply matchb_Cat. exists m, v. split; [done|]. split; [done|].
    apply matchb_Star_any.
Qed.

Lemma test_at_end (r : regex) (s : string) :
  test (Pattern false r true) s = true <->
  exists u m, chars s = u ++ m /\ matchb r m = true.
Proof.
  unfold test, search. simpl. rewrite matchb_Cat. split.
  - intros (u & x & -> & _ & Hx). apply matchb_Cat in Hx as (m & v & -> & Hm & Hv).
    apply matchb_Eps in Hv as ->. rewrite app_nil_r. eauto.
  - intros (u & m & -> & Hm). exists u, m.
    split; [done|]. split; [apply matchb_Star_any|].
    apply matchb_Cat. exists m, []. rewrite app_nil_r. done.
Qed.

Lemma test_at_start (r : regex) (s : string) :
  test (Pattern true r false) s = true <->
  exists m v, chars s = m ++ v /\ matchb r m = true.
Proof.
  unfold test, search. simpl. rewrite matchb_Cat. split.
  - intros (u & x & -> & Hu & Hx). apply matchb_Eps in Hu as ->.
    apply matchb_Cat in Hx as (m & v & -> & Hm & _). simpl. eauto.
  - intros (m & v & -> & Hm). exists [], (m ++ v).
    split; [done|]. split; [done|].
    apply matchb_Cat. exists m, v. split; [done|]. split; [done|].
    apply matchb_Star_any.
Qed.

Lemma test_whole (r : regex) (s : string) :
  test (Pattern true r true) s = matchb r (chars s).
Proof.
  unfold test, search. simpl.
  apply eq_true_iff_eq. rewrite matchb_Cat. split.
  - intros (u & x & -> & Hu & Hx). apply matchb_Eps in Hu as ->.
    apply matchb_Cat in Hx as (m & v & -> & Hm & Hv).
    apply matchb_Eps in Hv as ->. by rewrite app_nil_r.
  - intros H. exists [], (chars s). split; [done|]. split; [done|].
    apply matchb_Cat. exists (chars s), []. by rewrite app_nil_r.
Qed.

(** [/^[a-z]+$/] holds of the non-empty words made of [a]-[z]. *)
Lemma only_letters_spec (s : string) :
  test only_letters s = true <->
  chars s <> [] /\ forallb is_lower (chars s) = true.
Proof.
  unfold only_letters. rewrite test_whole. unfold plus. simpl at_least.
  rewrite matchb_Cat. split.
  - intros (u & v & -> & Hu & Hv). apply matchb_Cls in Hu as (c & -> & Hc).
    apply matchb_Star_Cls in Hv. simpl. by rewrite Hc, Hv.
  - intros [Hne Hall]. destruct (chars s) as [|c l]; [done|].
    simpl in Hall. apply andb_true_iff in Hall as [Hc Hl].
    exists [c], l. split; [done|]. split.
    + apply matchb_Cls. eauto.
    + by apply matchb_Star_Cls.
Qed.

(** A literal ending, and a literal found anywhere. *)
Lemma test_lit_end (p s : string) :
  test (Pattern false (lit p) true) s = endsWith s p.
Proof.
  apply eq_true_iff_eq. unfold endsWith, lit.
  rewrite test_at_end, ends_with_spec. split.
  - intros (u & m & H & Hm). apply matchb_lit in Hm as ->. eauto.
  - intros [u H]. exists u, (chars p). split; [done|]. by apply matchb_lit.
Qed.

Lemma test_lit_anywhere (p s : string) :
  test (Pattern false (lit p) false) s = includes s p.
Proof.
  apply eq_true_iff_eq. unfold includes, lit.
  rewrite test_anywhere, contains_spec. split.
  - intros (u & m & v & H & Hm). apply matchb_lit in Hm as ->. eauto.
  - intros (u & v & H). exists u, (chars p), v. split; [done|]. by apply matchb_lit.
Qed.

End RegexFacts.

(** ** The regional-spelling check *)

Section RegionalSpelling.

Lemma includes_occurs (p s : string) : includes s p = true <-> occurs_in p s.
Proof. apply contains_spec. Qed.

Lemma endsWith_ends (p s : string) : endsWith s p = true <-> ends_in p s.
Proof. apply ends_with_spec. Qed.

(** Under the [i] flag a lower-case letter of the pattern matches the
    characters that [toLowerCase] sends to it. *)
Lemma fold_lower (a c : ascii) :
  is_lower a = true -> (fold_char a = fold_char c <-> lower_char c = a).
Proof.
  intros Ha.
  pose (P := fun a c : ascii =>
    implb (is_lower a)
          (Bool.eqb (is_char (fold_char a) (fold_char c)) (is_char (lower_char c) a))).
  assert (H : forall a' c', P a' c' = true).
  { intros a'. apply (all_chars (P a')). revert a'.
    apply (all_chars (fun a' => forallb (P a') (map ascii_of_nat (seq 0 256)))).
    vm_compute. reflexivity. }
  specialize (H a c). unfold P in H. rewrite Ha in H. simpl in H. apply eqb_prop in H.
  rewrite <- !is_char_true, H. done.
Qed.

Lemma fold_lower_word (p m : list ascii) :
  forallb is_lower p = true ->
  (map fold_char m = map fold_char p <-> map lower_char m = p).
Proof.
  revert m. induction p as [|a p IH]; intros m Hp.
  - destruct m; simpl; split; congruence.
  - simpl in Hp. apply andb_true_iff in Hp as [Ha Hp].
    destruct m as [|c m]; simpl; [split; discriminate|].
    split; intros H; injection H as Hc Hm.
    + f_equal; [by apply fold_lower | by apply IH].
    + f_equal; [symmetry; by apply fold_lower | by apply IH].
Qed.

Lemma chars_toLowerCase (s : string) :
  chars (toLowerCase s) = map lower_char (chars s).
Proof. unfold toLowerCase. apply chars_str. Qed.

Lemma test_lit_i_anywhere (p s : string) :
  forallb is_lower (chars p) = true ->
  test (Pattern false (lit_chars_i (chars p)) false) s = includes (toLowerCase s) p.
Proof.
  intros Hp. apply eq_true_iff_eq.
  rewrite test_anywhere, includes_occurs. unfold occurs_in.
  rewrite chars_toLowerCase. split.
  - intros (u & m & v & -> & Hm). apply matchb_lit_i in Hm.
    apply fold_lower_word in Hm; [|done].
    exists (map lower_char u), (map lower_char v).
    by rewrite !map_app, Hm.
  - intros (u & v & H).
    apply map_eq_app in H as (u' & r & -> & _ & H).
    apply map_eq_app in H as (m & v' & -> & Hm & _).
    exists u', m, v'. split; [done|].
    apply matchb_lit_i. by apply fold_lower_word.
Qed.

Lemma test_lit_i_end (p s : string) :
  forallb is_lower (chars p) = true ->
  test (Pattern false (lit_chars_i (chars p)) true) s = endsWith (toLowerCase s) p.
Proof.
  intros Hp. apply eq_true_iff_eq.
  rewrite test_at_end, endsWith_ends. unfold ends_in.
  rewrite chars_toLowerCase. split.
  - intros (u & m & -> & Hm). apply matchb_lit_i in Hm.
    apply fold_lower_word in Hm; [|done].
    exists (map lower_char u). by rewrite map_app, Hm.
  - intros (u & H).
    apply map_eq_app in H as (u' & m & -> & _ & Hm).
    exists u', m. split; [done|].
    apply matchb_lit_i. by apply fold_lower_word.
Qed.

Lemma isUKSpelling_eq (word : string) :
  DenylistRules.isUKSpelling word =
  endsWith word "our" || endsWith word "ise" || endsWith word "yse"
  || endsWith word "re" || endsWith word "ogue"
  || includes word "ae" || includes word "oe".
Proof.
  unfold DenylistRules.isUKSpelling, DenylistRules.ukPatterns. simpl existsb.
  rewrite !test_lit_end, !test_lit_anywhere, orb_false_r, !orb_assoc. done.
Qed.

Lemma hasUKSpelling_eq (word : string) :
  Legacy.hasUKSpelling word =
  let w := toLowerCase word in
  includes w "our" || includes w "ise" || includes w "yse"
  || endsWith w "re" || endsWith w "ogue"
  || includes w "ae" || includes w "oe".
Proof.
  unfold Legacy.hasUKSpelling, Legacy.ukSpellingPatterns. simpl existsb.
  change (RegExp_i "our") with (Pattern false (lit_chars_i (chars "our")) false).
  change (RegExp_i "ise") with (Pattern false (lit_chars_i (chars "ise")) false).
  change (RegExp_i "yse") with (Pattern false (lit_chars_i (chars "yse")) false).
  change (RegExp_i "re$") with (Pattern false (lit_chars_i (chars "re")) true).
  change (RegExp_i "ogue$") with (Pattern false (lit_chars_i (chars "ogue")) true).
  change (RegExp_i "ae") with (Pattern false (lit_chars_i (chars "ae")) false).
  change (RegExp_i "oe") with (Pattern false (lit_chars_i (chars "oe")) false).
  rewrite !test_lit_i_anywhere, !test_lit_i_end by reflexivity.
  rewrite orb_false_r, !orb_assoc. done.
Qed.

End RegionalSpelling.

(** C7, as the program has it.  In the denylist variant [isUKSpelling]
    holds of a word exactly when the word ends in "our", "ise", "yse",
    "re" or "ogue" or has "ae" or "oe" somewhere in it.  In the first and
    the part-of-speech variant [hasUKSpelling] looks for "our", "ise" and
    "yse" anywhere in the (lower-cased) word, not only at its end; "re"
    and "ogue" must end the word there too. *)
Theorem regional_spelling_patterns (word : string) :
  (DenylistRules.isUKSpelling word = true <->
     ends_in "our" word \/ ends_in "ise" word \/ ends_in "yse" word
     \/ ends_in "re" word \/ ends_in "ogue" word
     \/ occurs_in "ae" word \/ occurs_in "oe" word)
  /\
  (Legacy.hasUKSpelling word = true <->
     let w := toLowerCase word in
     occurs_in "our" w \/ occurs_in "ise" w \/ occurs_in "yse" w
     \/ ends_in "re" w \/ ends_in "ogue" w
     \/ occurs_in "ae" w \/ occurs_in "oe" w).
Proof.
  split.
  - rewrite isUKSpelling_eq, !orb_true_iff, !endsWith_ends, !includes_occurs. tauto.
  - rewrite hasUKSpelling_eq. cbv zeta.
    rewrite !orb_true_iff, !endsWith_ends, !includes_occurs. tauto.
Qed.

(** C7 as stated fails in the first and the part-of-speech variant:
    "course" has "our" strictly inside, matches none of our$, ise$, yse$,
    re$, ogue$, ae, oe, and [hasUKSpelling] holds of it, so that
    [validateWord] rejects it as a UK spelling variant. *)
Lemma course_is_a_regional_spelling :
  Legacy.hasUKSpelling "course" = true
  /\ Legacy.validateWord (fun _ => false) "course" = rejected "UK spelling variant"
  /\ ~ (ends_in "our" "course" \/ ends_in "ise" "course" \/ ends_in "yse" "course"
        \/ ends_in "re" "course" \/ ends_in "ogue" "course"
        \/ occurs_in "ae" "course" \/ occurs_in "oe" "course").
Proof.
  split; [reflexivity|]. split; [reflexivity|].
  rewrite <- !endsWith_ends, <- !includes_occurs.
  vm_compute. intuition discriminate.
Qed.

(** ** The validator of the denylist variant *)

Section Counting.

Lemma tally_bump (c d : ascii) (m : list (ascii * nat)) :
  tally c (bump d m) = if is_char c d then S (tally c m) else tally c m.
Proof.
  induction m as [|[e n] m IH]; simpl.
  - destruct (is_char c d); done.
  - destruct (is_char d e) eqn:Hde; simpl.
    + apply is_char_true in Hde as ->. destruct (is_char c e); done.
    + destruct (is_char c e) eqn:Hce; [|done].
      apply is_char_true in Hce as ->.
      destruct (is_char e d) eqn:Hed; [|done].
      apply is_char_true in Hed as ->. by rewrite is_char_refl in Hde.
Qed.

Lemma tally_fold (c : ascii) (l : list ascii) (m : list (ascii * nat)) :
  tally c (fold_left (fun m c => bump c m) l m) = tally c m + count_occ ascii_dec l c.
Proof.
  revert m. induction l as [|d l IH]; intros m; simpl; [lia|].
  rewrite IH, tally_bump. unfold is_char.
  destruct (ascii_dec c d); destruct (ascii_dec d c); try congruence; lia.
Qed.

Lemma tally_letterCounts (c : ascii) (word : string) :
  tally c (letterCounts word) = occurrences c word.
Proof. unfold letterCounts, occurrences. by rewrite tally_fold. Qed.

Lemma tally_In (c : ascii) (m : list (ascii * nat)) :
  tally c m <> 0 -> In (c, tally c m) m.
Proof.
  induction m as [|[d n] m IH]; simpl; [done|].
  destruct (is_char c d) eqn:Hcd.
  - apply is_char_true in Hcd as ->. by left.
  - intros H. right. by apply IH.
Qed.

Lemma mostFrequent_fold (counts : list (ascii * nat)) (best : option ascii * nat) :
  let result :=
    fold_left (fun best entry =>
                 if (snd best <? snd entry)%nat then (Some (fst entry), snd entry)
                 else best) counts best in
  snd best <= snd result /\ forall e, In e counts -> snd e <= snd result.
Proof.
  revert best. induction counts as [|e counts IH]; intros best; simpl.
  - split; [lia | tauto].
  - destruct (snd best <? snd e)%nat eqn:Hlt.
    + apply Nat.ltb_lt in Hlt.
      destruct (IH (Some (fst e), snd e)) as [H1 H2]. simpl in H1.
      split; [lia|]. intros e' [<-|Hin]; [done | by apply H2].
    + apply Nat.ltb_ge in Hlt. destruct (IH best) as [H1 H2].
      split; [done|]. intros e' [<-|Hin]; [lia | by apply H2].
Qed.

Lemma mostFrequent_max (counts : list (ascii * nat)) (e : ascii * nat) :
  In e counts -> snd e <= snd (DenylistRules.mostFrequent counts).
Proof. intros H. by apply (mostFrequent_fold counts (None, 0)). Qed.

(** A word without excessive repetition has no letter more often than
    in half its places, rounded down. *)
Lemma repetition_bound (word : string) (c : ascii) :
  DenylistRules.hasExcessiveRepetition word = false ->
  occurrences c word <= len word / 2.
Proof.
  unfold DenylistRules.hasExcessiveRepetition. intros H.
  destruct (Nat.eq_dec (occurrences c word) 0) as [->|Hpos]; [lia|].
  pose proof (tally_In c (letterCounts word)) as Hin.
  rewrite tally_letterCounts in Hin. specialize (Hin Hpos).
  apply mostFrequent_max in Hin. simpl in Hin.
  destruct (DenylistRules.mostFrequent (letterCounts word)) as [maxChar maxCount].
  simpl in Hin.
  destruct (len word / 2 <? maxCount)%nat eqn:Hlt; [discriminate|].
  apply Nat.ltb_ge in Hlt. lia.
Qed.

Lemma hasVowel_spec (word : string) :
  hasVowel word = true <-> exists c, In c (chars word) /\ In c vowels.
Proof.
  unfold hasVowel, letters, is_vowel. rewrite existsb_exists. split.
  - intros (c & Hc & Hv). apply existsb_exists in Hv as (v & Hv & E).
    apply is_char_true in E as ->. eauto.
  - intros (c & Hc & Hv). exists c. split; [done|].
    apply existsb_exists. exists c. by rewrite is_char_refl.
Qed.

End Counting.

(** Unfolds one guard of a validator that let the word through. *)
Ltac passed H :=
  match type of H with
  | isValid (if ?b then _ else _) = true =>
      let E := fresh "Guard" in
      destruct b eqn:E; [simpl in H; discriminate H|]
  end.

(** C1, as the program has it.  The validator lower-cases and trims its
    argument before any check; when it accepts, the word in that form
    matches [/^[a-z]+$/], has 3 to 9 letters, has one of a, e, i, o, u, y,
    and has no letter more than ceil(length/2) times. *)
Theorem accepted_word_shape
        (isProfane : ProfanityFilter) (loaded : bool) (problemWords : gset string)
        (w : string) :
  isValid (DenylistRules.validateWord isProfane loaded problemWords w) = true ->
  let word := trim (toLowerCase w) in
  test only_letters word = true
  /\ (chars word <> [] /\ Forall (fun c => is_lower c = true) (chars word))
  /\ 3 <= len word <= 9
  /\ (exists c, In c (chars word) /\ In c vowels)
  /\ forall c, occurrences c word <= (len word + 1) / 2.
Proof.
  unfold DenylistRules.validateWord. intros H. cbv zeta in *.
  do 6 passed H.
  apply negb_false_iff in Guard0, Guard3.
  apply orb_false_iff in Guard1 as [Hlo Hhi].
  apply Nat.ltb_ge in Hlo, Hhi.
  split; [done|]. split.
  { apply only_letters_spec in Guard0 as [Hne Hall]. split; [done|].
    apply List.Forall_forall. intros c Hc.
    by apply (proj1 (forallb_forall _ _) Hall). }
  split; [lia|]. split; [by apply hasVowel_spec|].
  intros c. pose proof (repetition_bound _ c Guard4) as Hc.
  etransitivity; [exact Hc|]. apply Nat.Div0.div_le_mono. lia.
Qed.

Lemma accepted_word_shape_witness :
  let word := trim (toLowerCase " Apple") in
  test only_letters word = true
  /\ (chars word <> [] /\ Forall (fun c => is_lower c = true) (chars word))
  /\ 3 <= len word <= 9
  /\ (exists c, In c (chars word) /\ In c vowels)
  /\ forall c, occurrences c word <= (len word + 1) / 2.
Proof.
  apply (accepted_word_shape (fun _ => false) false ∅ " Apple").
  vm_compute. reflexivity.
Defined.

(** C1 as stated fails: the validator accepts "Apple", which does not
    match [/^[a-z]+$/], and " apple   ", which has more than 9
    characters. *)
Lemma unnormalised_words_are_accepted :
  (isValid (DenylistRules.validateWord (fun _ => false) false ∅ "Apple") = true
   /\ test only_letters "Apple" = false)
  /\ (isValid (DenylistRules.validateWord (fun _ => false) false ∅ "  apple     ") = true
      /\ test only_letters "  apple     " = false
      /\ 9 < len "  apple     ").
Proof. vm_compute. repeat split; lia. Qed.

(** ** The validator of the first and the part-of-speech variant *)

Section ShortWords.

Lemma filter_map_length {A B : Type} (f : A -> B) (P : B -> bool) (l : list A) :
  length (List.filter P (map f l)) = length (List.filter (fun x => P (f x)) l).
Proof.
  induction l as [|x l IH]; simpl; [done|].
  destruct (P (f x)); simpl; congruence.
Qed.

Lemma filter_split_length {A : Type} (P : A -> bool) (l : list A) :
  length (List.filter P l) + length (List.filter (fun x => negb (P x)) l) = length l.
Proof.
  induction l as [|x l IH]; simpl; [done|].
  destruct (P x); simpl; lia.
Qed.

(** The abbreviation heuristic on short words. *)
Lemma short_abbreviation (word : string) :
  len word <= 3 ->
  2 <= length (List.filter (fun c => negb (is_vowel c)) (letters word)) ->
  Legacy.isAbbreviation word = true.
Proof.
  intros Hlen Hcons. unfold Legacy.isAbbreviation. cbv zeta.
  destruct (7 * len word <? 10 * _)%nat; [done|].
  apply Nat.leb_le in Hlen, Hcons. by rewrite Hlen, Hcons.
Qed.

(** The length bound. *)
Lemma short_rejected (isProfane : ProfanityFilter) (w : string) :
  len (trim (toLowerCase w)) < 3 ->
  isValid (Legacy.validateWord isProfane w) = false.
Proof.
  intros Hlen. unfold Legacy.validateWord. cbv zeta.
  destruct (negb (nonempty w)); [done|].
  destruct (negb (test only_letters _)); [done|].
  apply Nat.ltb_lt in Hlen. by rewrite Hlen.
Qed.

End ShortWords.

(** C10.  A word of three characters that the validator of the first and
    of the part-of-speech variant accepts has at most one consonant: at
    least two of its three letters are among a, e, i, o, u, y (letters are
    taken without regard to case, as the validator takes them).  The
    abbreviation heuristic rejects the words of at most three letters with
    two consonants or more, and the length bound the shorter ones. *)
Theorem three_letter_words_have_one_consonant
        (isProfane : ProfanityFilter) (w : string) :
  len w = 3 ->
  isValid (Legacy.validateWord isProfane w) = true ->
  length (consonantsOf w) <= 1
  /\ 2 <= length (vowelsOf w)
  /\ (forall word, len word <= 3 ->
        2 <= length (List.filter (fun c => negb (is_vowel c)) (letters word)) ->
        Legacy.isAbbreviation word = true)
  /\ (forall w', len (trim (toLowerCase w')) < 3 ->
        isValid (Legacy.validateWord isProfane w') = false).
Proof.
  intros Hlen H.
  assert (Hcons : length (consonantsOf w) <= 1).
  { unfold Legacy.validateWord in H. cbv zeta in H.
    do 7 passed H.
    apply orb_false_iff in Guard1 as [Hlo _]. apply Nat.ltb_ge in Hlo.
    destruct (trim_shorter (toLowerCase w)) as [E | Hlt];
      [|rewrite len_toLowerCase in Hlt; lia].
    rewrite E in Guard5.
    destruct (le_lt_dec 2 (length (consonantsOf w))) as [Hge|]; [|lia].
    rewrite short_abbreviation in Guard5; [discriminate| |].
    - rewrite len_toLowerCase. lia.
    - unfold letters. rewrite chars_toLowerCase, filter_map_length. exact Hge. }
  split; [exact Hcons|]. split.
  - pose proof (filter_split_length (fun c => is_vowel (lower_char c)) (letters w)) as Hsum.
    unfold letters in Hsum. rewrite <- len_chars, Hlen in Hsum.
    unfold consonantsOf, vowelsOf, letters in *. lia.
  - split; [apply short_abbreviation | apply short_rejected].
Qed.

Lemma three_letter_words_have_one_consonant_witness :
  length (consonantsOf "EAT") <= 1
  /\ 2 <= length (vowelsOf "EAT")
  /\ (forall word, len word <= 3 ->
        2 <= length (List.filter (fun c => negb (is_vowel c)) (letters word)) ->
        Legacy.isAbbreviation word = true)
  /\ (forall w', len (trim (toLowerCase w')) < 3 ->
        isValid (Legacy.validateWord (fun _ => false) w') = false).
Proof.
  apply (three_letter_words_have_one_consonant (fun _ => false) "EAT");
    vm_compute; reflexivity.
Defined.

(** ** The sampling step *)

Section Sampling.

Import Denylist.

Lemma splice1_delete (i : nat) (xs : list string) : splice1 i xs = delete i xs.
Proof. unfold splice1. by rewrite delete_take_drop. Qed.

(** A turn of the loop moves one word from the words still available
    to the result. *)
Lemma draw_moves (k : nat) (resultWords availableWords : list string) :
  NoDup (resultWords ++ availableWords) ->
  0 < length availableWords ->
  let i := k mod length availableWords in
  let x := nth i availableWords "" in
  set_add x resultWords = resultWords ++ [x]
  /\ set_add x resultWords ++ splice1 i availableWords ≡ₚ resultWords ++ availableWords
  /\ length (splice1 i availableWords) = length availableWords - 1.
Proof.
  intros Hnd Hpos i x.
  assert (Hi : i < length availableWords) by (apply Nat.mod_upper_bound; lia).
  destruct (lookup_lt_is_Some_2 _ _ Hi) as [y Hy].
  assert (Hx : x = y) by (unfold x; by rewrite nth_lookup, Hy).
  subst y.
  assert (Hin : x ∈ availableWords) by (by eapply list_elem_of_lookup_2).
  apply NoDup_app in Hnd as (_ & Hdisj & _).
  assert (Hadd : set_add x resultWords = resultWords ++ [x]).
  { unfold set_add. rewrite (proj2 (bool_decide_eq_false _)); [done|].
    intros Hr. by apply (Hdisj x). }
  split; [done|]. rewrite Hadd, splice1_delete. split.
  - rewrite <- app_assoc. simpl. by rewrite <- (delete_Permutation _ _ _ Hy).
  - apply length_delete. eauto.
Qed.

Lemma drawWords_spec (E : Env) (fuel count : nat)
      (resultWords availableWords : list string) (s : State) :
  NoDup (resultWords ++ availableWords) ->
  length availableWords <= fuel ->
  length resultWords <= count ->
  let r := fst (drawWords E fuel count resultWords availableWords s) in
  NoDup r
  /\ (forall x, x ∈ r -> x ∈ resultWords ++ availableWords)
  /\ length r = Nat.min count (length resultWords + length availableWords).
Proof.
  revert resultWords availableWords s.
  induction fuel as [|fuel IH]; intros resultWords availableWords s Hnd Hfuel Hcount.
  - simpl. destruct availableWords; [|simpl in Hfuel; lia].
    rewrite app_nil_r in *. simpl. split; [done|]. split; [done|]. lia.
  - simpl.
    destruct ((length resultWords <? count)%nat && (0 <? length availableWords)%nat)
      eqn:Hcond.
    + apply andb_true_iff in Hcond as [Hlt Hpos].
      apply Nat.ltb_lt in Hlt, Hpos.
      destruct (draw_moves (random E (draws s)) _ _ Hnd Hpos) as (Hadd & Hperm & Hlen).
      cbv zeta in Hadd, Hperm, Hlen.
      edestruct (IH (set_add (nth (random E (draws s) mod length availableWords)
                                  availableWords "") resultWords)
                    (splice1 (random E (draws s) mod length availableWords) availableWords)
                    (with_draws (S (draws s)) s)) as (H1 & H2 & H3).
      * by rewrite Hperm.
      * lia.
      * rewrite Hadd, length_app. simpl. lia.
      * split; [exact H1|]. split.
        -- intros x Hx. rewrite <- Hperm. by apply H2.
        -- rewrite H3, Hlen, Hadd, length_app. simpl. lia.
    + simpl. apply NoDup_app in Hnd as (Hnd & _ & _).
      split; [done|]. split; [intros x Hx; apply elem_of_app; by left|].
      apply andb_false_iff in Hcond as [Hge | Hnil].
      * apply Nat.ltb_ge in Hge. lia.
      * apply Nat.ltb_ge in Hnil. lia.
Qed.

(** The loop ends by its own condition: more fuel than there are words
    available changes nothing. *)
Lemma drawWords_fuel (E : Env) (fuel fuel' count : nat)
      (resultWords availableWords : list string) (s : State) :
  length availableWords <= fuel ->
  length availableWords <= fuel' ->
  drawWords E fuel count resultWords availableWords s
  = drawWords E fuel' count resultWords availableWords s.
Proof.
  revert fuel' resultWords availableWords s.
  induction fuel as [|fuel IH]; intros fuel' resultWords availableWords s H H'.
  - destruct availableWords; [|simpl in H; lia].
    destruct fuel'; simpl; [done|].
    by rewrite andb_false_r.
  - destruct fuel' as [|fuel'].
    + destruct availableWords; [|simpl in H'; lia].
      simpl. by rewrite andb_false_r.
    + simpl.
      destruct ((length resultWords <? count)%nat && (0 <? length availableWords)%nat)
        eqn:Hcond; [|done].
      apply andb_true_iff in Hcond as [_ Hpos]. apply Nat.ltb_lt in Hpos.
      assert (Hlen : length (splice1 (random E (draws s) mod length availableWords)
                                     availableWords) = length availableWords - 1).
      { rewrite splice1_delete. apply length_delete, lookup_lt_is_Some_2.
        apply Nat.mod_upper_bound. lia. }
      apply IH; lia.
Qed.

End Sampling.

(** C3.  On a pool of distinct words the sampling step returns distinct
    words of the pool, [min count (length pool)] of them: the pool itself
    when it has no more than [count] words, and exactly [count] words
    otherwise.  The draws end by the condition of the loop, whatever the
    random numbers are. *)
Theorem sample_spec (E : Env) (pool : list string) (count : nat) (s : Denylist.State) :
  NoDup pool ->
  let result := fst (Denylist.sample E pool count s) in
  NoDup result
  /\ (forall word, word ∈ result -> word ∈ pool)
  /\ length result = Nat.min count (length pool)
  /\ (length pool <= count -> result = pool)
  /\ (count < length pool -> length result = count)
  /\ (forall fuel, length pool <= fuel ->
        Denylist.drawWords E fuel count [] pool s
        = Denylist.drawWords E (length pool) count [] pool s).
Proof.
  intros Hnd. unfold Denylist.sample. cbv zeta.
  destruct (length pool <=? count)%nat eqn:Hle.
  - apply Nat.leb_le in Hle. simpl.
    split; [done|]. split; [done|]. split; [lia|]. split; [done|]. split; [lia|].
    intros fuel Hfuel. by apply drawWords_fuel.
  - apply Nat.leb_gt in Hle.
    destruct (drawWords_spec E (length pool) count [] pool s) as (H1 & H2 & H3);
      [done | done | simpl; lia |].
    simpl in H2, H3.
    split; [done|]. split; [done|]. split; [lia|]. split; [lia|]. split; [lia|].
    intros fuel Hfuel. by apply drawWords_fuel.
Qed.

Lemma sample_spec_witness :
  let E := {| isProfane := fun _ => false;
              network := fun _ _ => (0%Z, Aborted);
              random := fun n => 7 * n + 5;
              jsonWords := fun _ => None;
              jsonArray := fun _ => inl "" |} in
  let pool := ["apple"; "grape"; "mango"; "candy"; "zebra"] in
  let result := fst (Denylist.sample E pool 3 (Denylist.fresh ∅ 0)) in
  result = ["apple"; "grape"; "candy"]
  /\ NoDup result
  /\ (forall word, word ∈ result -> word ∈ pool)
  /\ length result = Nat.min 3 (length pool)
  /\ (length pool <= 3 -> result = pool)
  /\ (3 < length pool -> length result = 3)
  /\ (forall fuel, length pool <= fuel ->
        Denylist.drawWords E fuel 3 [] pool (Denylist.fresh ∅ 0)
        = Denylist.drawWords E (length pool) 3 [] pool (Denylist.fresh ∅ 0)).
Proof.
  intros E pool result. split; [vm_compute; reflexivity|].
  apply (sample_spec E pool 3 (Denylist.fresh ∅ 0)).
  apply (bool_decide_unpack (NoDup pool)). vm_compute. exact I.
Defined.

(** ** Fetching in the denylist variant *)

Section DenylistFetching.

Import Denylist.

(** A request touches the local storage, the clock and the list of
    requests, and no field of the object. *)
Lemma download_frame (E : Env) (url : string) (s s1 : State) (r : outcome (list string)) :
  download E url s = (r, s1) ->
  problemWords s1 = problemWords s
  /\ problemWordsLoaded s1 = problemWordsLoaded s
  /\ wordCache s1 = wordCache s
  /\ errorLog s1 = errorLog s
  /\ draws s1 = draws s
  /\ requests s1 = requests s ++ [url].
Proof.
  unfold download. destruct (network E (length (requests s)) url) as [elapsed answer].
  destruct answer as [|message|ok status statusText text].
  - intros [= <- <-]. done.
  - intros [= <- <-]. done.
  - destruct (negb ok); [intros [= <- <-]; done|].
    destruct (length (lettersOnly _) =? 0)%nat; intros [= <- <-]; done.
Qed.


Lemma fetchWordList_cases (E : Env) (url : string) (s : State) :
  (exists data timestamp,
      localStorage s !! cacheKey url = Some (Entry data timestamp)
      /\ (now s - timestamp < freshness)%Z
      /\ fetchWordList E url s = (Returned data, s))
  \/ fetchWordList E url s = download E url s.
Proof.
  unfold fetchWordList.
  destruct (localStorage s !! cacheKey url) as [[data timestamp|]|]; [|by right..].
  destruct (now s - timestamp <? freshness)%Z eqn:Hfresh; [|by right].
  left. exists data, timestamp. apply Z.ltb_lt in Hfresh. done.
Qed.

Lemma fetchWordList_frame (E : Env) (url : string) (s s1 : State)
      (r : outcome (list string)) :
  fetchWordList E url s = (r, s1) ->
  problemWords s1 = problemWords s
  /\ problemWordsLoaded s1 = problemWordsLoaded s
  /\ wordCache s1 = wordCache s
  /\ errorLog s1 = errorLog s
  /\ draws s1 = draws s.
Proof.
  destruct (fetchWordList_cases E url s) as [(data & timestamp & _ & _ & ->) | ->].
  - intros [= <- <-]. done.
  - intros H. apply download_frame in H. tauto.
Qed.


End DenylistFetching.



(** ** The error log *)

Section ErrorLog.

Lemma pos_download_frame (E : Env) (url : string) (s s1 : PosVariant.State)
      (r : outcome (list string)) :
  PosVariant.download E url s = (r, s1) ->
  PosVariant.wordCache s1 = PosVariant.wordCache s
  /\ PosVariant.errorLog s1 = PosVariant.errorLog s.
Proof.
  unfold PosVariant.download.
  destruct (network E (length (PosVariant.requests s)) url) as [elapsed answer].
  destruct answer as [|message|ok status statusText text].
  - intros [= <- <-]. done.
  - intros [= <- <-]. done.
  - destruct (negb ok); [intros [= <- <-]; done|].
    destruct (PosVariant.parseBody E url text); [|intros [= <- <-]; done].
    destruct (length (lettersOnly _) =? 0)%nat; intros [= <- <-]; done.
Qed.

Lemma pos_fetchWordList_frame (E : Env) (url : string) (s s1 : PosVariant.State)
      (r : outcome (list string)) :
  PosVariant.fetchWordList E url s = (r, s1) ->
  PosVariant.wordCache s1 = PosVariant.wordCache s
  /\ PosVariant.errorLog s1 = PosVariant.errorLog s.
Proof.
  unfold PosVariant.fetchWordList.
  destruct (PosVariant.localStorage s !! cacheKey url) as [[data timestamp|]|];
    try apply pos_download_frame.
  destruct (PosVariant.now s - timestamp <? PosVariant.freshness)%Z;
    [intros [= <- <-]; done | apply pos_download_frame].
Qed.

End ErrorLog.

(** C8, as the program has it.  When [fetchWordListBySource] has to fetch
    the list of a source (the list is not in the in-memory cache):
    - in the denylist variant a fetch that succeeds leaves no entry for
      the source in the error log, and a fetch that fails leaves the
      message of the failure there;
    - in the part-of-speech variant a fetch that fails leaves the message
      of the failure there as well, and a fetch that succeeds leaves the
      error log as it was: an entry recorded earlier stays. *)
Theorem error_log_after_fetch
        (E : Env) (source : string) (d : Denylist.State) (p : PosVariant.State) :
  Denylist.wordCache d !! source = None ->
  PosVariant.wordCache p !! source = None ->
  match Denylist.fetchWordList E (Denylist.urlOf source) d with
  | (Returned words, _) =>
      fst (Denylist.fetchWordListBySource E source d) = Returned words
      /\ Denylist.errorLog (snd (Denylist.fetchWordListBySource E source d)) !! source
         = None
  | (Thrown message, _) =>
      Denylist.errorLog (snd (Denylist.fetchWordListBySource E source d)) !! source
      = Some message
  end
  /\
  match PosVariant.fetchWordList E (PosVariant.urlOf source) p with
  | (Returned words, _) =>
      (exists words', fst (PosVariant.fetchWordListBySource E source p) = Returned words')
      /\ PosVariant.errorLog (snd (PosVariant.fetchWordListBySource E source p))
         = PosVariant.errorLog p
  | (Thrown message, _) =>
      fst (PosVariant.fetchWordListBySource E source p) = Thrown message
      /\ PosVariant.errorLog (snd (PosVariant.fetchWordListBySource E source p)) !! source
         = Some message
  end.
Proof.
  intros Hd Hp. split.
  - unfold Denylist.fetchWordListBySource. rewrite Hd.
    destruct (Denylist.fetchWordList E (Denylist.urlOf source) d) as [[words|message] d1]
      eqn:Hfetch.
    + simpl. split; [done|]. apply lookup_delete_eq.
    + simpl.
      destruct (Denylist.wordCache d1 !! "google_common");
        [destruct (bool_decide (source = "google_common"))|];
        simpl; apply lookup_insert_eq.
  - unfold PosVariant.fetchWordListBySource. rewrite Hp.
    destruct (PosVariant.fetchWordList E (PosVariant.urlOf source) p)
      as [[words|message] p1] eqn:Hfetch.
    + apply pos_fetchWordList_frame in Hfetch as [_ Hlog].
      destruct (PosVariant.isCategory source && _); simpl; eauto.
    + simpl. split; [done|]. apply lookup_insert_eq.
Qed.

Lemma error_log_after_fetch_witness :
  let E := {| isProfane := fun _ => false;
              network := fun n _ =>
                if (n =? 0)%nat then (40%Z, Responded false 404 "Not Found" "")
                else (40%Z, Responded true 200 "OK" "apple,mango");
              random := fun n => n;
              jsonWords := fun _ => None;
              jsonArray := fun _ => inl "" |} in
  let d := Denylist.fresh ∅ 0 in
  let p := PosVariant.fresh ∅ 0 in
  (Denylist.errorLog (snd (Denylist.fetchWordListBySource E "scrabble" d)) !! "scrabble"
   = Some "Failed to fetch word list: 404 Not Found")
  /\ (fst (PosVariant.fetchWordListBySource E "gsl" p)
      = Thrown "Failed to fetch word list: 404 Not Found"
      /\ PosVariant.errorLog (snd (PosVariant.fetchWordListBySource E "gsl" p)) !! "gsl"
         = Some "Failed to fetch word list: 404 Not Found").
Proof.
  intros E d p.
  pose proof (error_log_after_fetch E "scrabble" d p eq_refl eq_refl) as [Hd _].
  pose proof (error_log_after_fetch E "gsl" d p eq_refl eq_refl) as [_ Hp].
  split; [exact Hd | exact Hp].
Defined.

(** C8 as stated fails in the part-of-speech variant: the first fetch of
    the source "gsl" fails and its message is recorded; the second fetch
    succeeds, and the message is still in the error log. *)
Lemma error_survives_a_successful_fetch :
  let E := {| isProfane := fun _ => false;
              network := fun n _ =>
                if (n =? 0)%nat then (40%Z, Responded false 404 "Not Found" "")
                else (40%Z, Responded true 200 "OK" "apple,mango");
              random := fun n => n;
              jsonWords := fun _ => None;
              jsonArray := fun _ => inl "" |} in
  let '(first, p1) := PosVariant.fetchWordListBySource E "gsl" (PosVariant.fresh ∅ 0) in
  let '(second, p2) := PosVariant.fetchWordListBySource E "gsl" p1 in
  first = Thrown "Failed to fetch word list: 404 Not Found"
  /\ second = Returned ["apple"; "mango"]
  /\ PosVariant.requests p2 = [PosVariant.GSL_WORDS; PosVariant.GSL_WORDS]
  /\ PosVariant.errorLog p2 !! "gsl" = Some "Failed to fetch word list: 404 Not Found".
Proof. vm_compute. done. Qed.

(** ** The loop over the sources *)

Section Gathering.

Import Denylist.

Lemma fetchWordListBySource_frame (E : Env) (source : string) (s s1 : State)
      (r : outcome (list string)) :
  fetchWordListBySource E source s = (r, s1) ->
  problemWords s1 = problemWords s
  /\ problemWordsLoaded s1 = problemWordsLoaded s
  /\ draws s1 = draws s.
Proof.
  unfold fetchWordListBySource.
  destruct (wordCache s !! source); [intros [= <- <-]; done|].
  destruct (fetchWordList E (urlOf source) s) as [[words|message] s'] eqn:Hfetch;
    apply fetchWordList_frame in Hfetch as (H1 & H2 & _ & _ & H3).
  - intros [= <- <-]. done.
  - simpl.
    destruct (wordCache s' !! "google_common");
      [destruct (bool_decide (source = "google_common"))|];
      intros [= <- <-]; done.
Qed.

Lemma validate_frame (E : Env) (s s' : State) (word : string) :
  problemWords s' = problemWords s ->
  problemWordsLoaded s' = problemWordsLoaded s ->
  validate E s' word = validate E s word.
Proof. unfold validate. by intros -> ->. Qed.

Lemma set_add_elem (x w : string) (set : list string) :
  w ∈ set_add x set <-> w ∈ set \/ w = x.
Proof.
  unfold set_add. case_bool_decide as Hx.
  - split; [by left|]. intros [H| ->]; done.
  - rewrite elem_of_app, list_elem_of_singleton. done.
Qed.

Lemma set_add_NoDup (x : string) (set : list string) :
  NoDup set -> NoDup (set_add x set).
Proof.
  intros Hnd. unfold set_add. case_bool_decide as Hx; [done|].
  apply NoDup_app. split; [done|]. split; [|apply NoDup_singleton].
  intros y Hy Hyx. apply list_elem_of_singleton in Hyx as ->. done.
Qed.

Lemma set_add_all_elem (xs set : list string) (w : string) :
  w ∈ set_add_all xs set <-> w ∈ set \/ w ∈ xs.
Proof.
  unfold set_add_all. revert set. induction xs as [|x xs IH]; intros set; simpl.
  - rewrite elem_of_nil. tauto.
  - rewrite IH, set_add_elem, elem_of_cons. tauto.
Qed.

Lemma set_add_all_NoDup (xs set : list string) :
  NoDup set -> NoDup (set_add_all xs set).
Proof.
  unfold set_add_all. revert set. induction xs as [|x xs IH]; intros set H; simpl.
  - done.
  - by apply IH, set_add_NoDup.
Qed.

Lemma length_zero_nil {A : Type} (l : list A) :
  (0 <? length l)%nat = false <-> l = [].
Proof. destruct l; simpl; split; (done || discriminate). Qed.

Lemma ofLength_elem (length : nat) (words : list string) (word : string) :
  word ∈ ofLength length words <-> word ∈ words /\ len word = length.
Proof. unfold ofLength. by rewrite !list_elem_of_In, filter_In, Nat.eqb_eq. Qed.




Lemma gatherSource_spec (E : Env) (length : nat) (g : Gathered) (s : State)
      (source : string) :
  let turn := (source, s) in
  let g' := fst (gatherSource E length (g, s) source) in
  snd (gatherSource E length (g, s) source) = snd (fetchWordListBySource E source s)
  /\ failed g' = failed g ++ (if contributes E length turn then [] else [source])
  /\ succeeded g' = succeeded g ++ (if contributes E length turn then [source] else [])
  /\ (forall w, w ∈ allWords g' <-> w ∈ allWords g \/ yields E length turn w)
  /\ (NoDup (allWords g) -> NoDup (allWords g')).
Proof.
  unfold gatherSource, contributes, yields, fetched. simpl.
  destruct (fetchWordListBySource E source s) as [[ws|message] s1]; simpl.
  - destruct (0 <? List.length (ofLength length ws))%nat eqn:Hpos; simpl.
    + rewrite !app_nil_r. repeat split; try done.
      * intros H. apply set_add_all_elem in H as [H|H]; [by left|].
        right. exists ws. by apply ofLength_elem in H.
      * intros [H | (ws' & [= <-] & H)]; apply set_add_all_elem; [by left|].
        right. by apply ofLength_elem.
      * apply set_add_all_NoDup.
    + rewrite !app_nil_r. repeat split; try done.
      * by left.
      * intros [H | (ws' & [= <-] & H)]; [done|].
        apply ofLength_elem in H.
        apply length_zero_nil in Hpos. rewrite Hpos in H. by apply elem_of_nil in H.
  - rewrite !app_nil_r. repeat split; try done.
    + by left.
    + intros [H | (ws' & H & _)]; done.
Qed.

Local Arguments gatherSource : simpl never.
Local Arguments fetchWordListBySource : simpl never.
Local Arguments contributes : simpl never.

Lemma gather_fold (E : Env) (length : nat) (sources : list string)
      (g : Gathered) (s : State) :
  let g' := fst (fold_left (gatherSource E length) sources (g, s)) in
  let s' := snd (fold_left (gatherSource E length) sources (g, s)) in
  failed g' = failed g
              ++ map fst (List.filter (fun turn => negb (contributes E length turn))
                                      (turns E sources s))
  /\ (forall w, w ∈ allWords g' <->
                w ∈ allWords g
                \/ exists turn, turn ∈ turns E sources s /\ yields E length turn w)
  /\ (NoDup (allWords g) -> NoDup (allWords g'))
  /\ problemWords s' = problemWords s
  /\ problemWordsLoaded s' = problemWordsLoaded s.
Proof.
  revert g s. induction sources as [|source rest IH]; intros g s; simpl.
  - rewrite app_nil_r. repeat split; try done.
    + by left.
    + intros [H | (turn & H & _)]; [done | by apply elem_of_nil in H].
  - destruct (gatherSource_spec E length g s source) as (Hs & Hf & _ & Hw & Hnd).
    destruct (gatherSource E length (g, s) source) as [g1 s1] eqn:Hstep.
    simpl in Hs, Hf, Hw, Hnd. subst s1.
    destruct (IH g1 (snd (fetchWordListBySource E source s)))
      as (IHf & IHw & IHnd & IHp & IHl).
    destruct (fetchWordListBySource E source s) as [r s1] eqn:Hfetch.
    apply fetchWordListBySource_frame in Hfetch as (Hp & Hl & _). simpl in *.
    split; [|split; [|split; [|split]]].
    + rewrite IHf, Hf.
      destruct (contributes E length (source, s)); simpl;
        by rewrite <- ?app_assoc, ?app_nil_r.
    + intros w. rewrite IHw, Hw. split.
      * intros [[H|H] | (turn & Hin & H)]; [by left| |].
        -- right. exists (source, s). split; [apply elem_of_cons; by left | done].
        -- right. exists turn. split; [apply elem_of_cons; by right | done].
      * intros [H | (turn & Hin & H)]; [by left; left|].
        apply elem_of_cons in Hin as [-> | Hin]; [left; by right|].
        right. eauto.
    + intros H. by apply IHnd, Hnd.
    + congruence.
    + congruence.
Qed.


Lemma turns_sources (E : Env) (sources : list string) (s : State) :
  map fst (turns E sources s) = sources.
Proof.
  revert s. induction sources as [|source rest IH]; intros s; simpl; [done|].
  by rewrite IH.
Qed.




End Gathering.

(** ** The orchestrator of the denylist variant *)

Section Orchestrator.

Import Denylist.




(** The in-memory fallback: when the list of a source cannot be fetched,
    the call throws only if there is no list of "google_common" in the
    in-memory cache, or the source is "google_common" itself. *)
Lemma fallback_cases (E : Env) (source : string) (s s1 : State) (message : string) :
  wordCache s !! source = None ->
  fetchWordList E (urlOf source) s = (Thrown message, s1) ->
  match wordCache s !! "google_common" with
  | Some commonWords =>
      if bool_decide (source = "google_common")
      then fst (fetchWordListBySource E source s) = Thrown message
      else fetchWordListBySource E source s
           = (Returned commonWords,
              with_wordCache (<[source := commonWords]> (wordCache s))
                (with_errorLog (<[source := message]> (errorLog s)) s1))
  | None => fst (fetchWordListBySource E source s) = Thrown message
  end.
Proof.
  intros Hmiss Hfetch. unfold fetchWordListBySource. rewrite Hmiss, Hfetch.
  apply fetchWordList_frame in Hfetch as (_ & _ & Hcache & Hlog & _).
  simpl. rewrite Hcache, Hlog.
  destruct (wordCache s !! "google_common"); [|done].
  destruct (bool_decide (source = "google_common")); done.
Qed.

End Orchestrator.








(** C9, as the program has it.  When the list of a source other than
    "google_common" is not in the in-memory cache and cannot be fetched,
    and a list of "google_common" is in that cache, then
    [fetchWordListBySource] records the error, returns the list of
    "google_common" and caches it under the id of the source, without
    throwing.  In the loop of [generateWordsFromMultipleSources] the
    source is then added to [failedSources] exactly when that list has no
    word of the requested length. *)
Theorem unreachable_source_falls_back
        (E : Env) (length : nat) (source : string) (s s1 : Denylist.State)
        (commonWords : list string) (message : string) (g : Denylist.Gathered) :
  Denylist.wordCache s !! source = None ->
  source <> "google_common" ->
  Denylist.wordCache s !! "google_common" = Some commonWords ->
  Denylist.fetchWordList E (Denylist.urlOf source) s = (Thrown message, s1) ->
  let '(r, s2) := Denylist.fetchWordListBySource E source s in
  let g' := fst (Denylist.gatherSource E length (g, s) source) in
  r = Returned commonWords
  /\ Denylist.wordCache s2 !! source = Some commonWords
  /\ Denylist.errorLog s2 !! source = Some message
  /\ (ofLength length commonWords = [] ->
        Denylist.failed g' = Denylist.failed g ++ [source])
  /\ (ofLength length commonWords <> [] ->
        Denylist.failed g' = Denylist.failed g
        /\ Denylist.succeeded g' = Denylist.succeeded g ++ [source]).
Proof.
  intros Hmiss Hne Hcommon Hfetch.
  pose proof (fallback_cases E source s s1 message Hmiss Hfetch) as Hcases.
  rewrite Hcommon in Hcases.
  rewrite (proj2 (bool_decide_eq_false _) Hne) in Hcases.
  unfold Denylist.gatherSource. rewrite Hcases. simpl.
  split; [done|]. split; [apply lookup_insert_eq|]. split.
  { rewrite lookup_insert_eq. done. }
  destruct (ofLength length commonWords) as [|w ws]; simpl.
  - split; [done|]. intros H. done.
  - split; [discriminate|]. done.
Qed.

Lemma unreachable_source_falls_back_witness :
  let E := Scenario.world in
  let g := {| Denylist.allWords := []; Denylist.failed := []; Denylist.succeeded := [] |} in
  let '(r, s2) := Denylist.fetchWordListBySource E "enable" Scenario.cached in
  let g' := fst (Denylist.gatherSource E 5 (g, Scenario.cached) "enable") in
  r = Returned ["apple"; "mango"; "grape"]
  /\ Denylist.wordCache s2 !! "enable" = Some ["apple"; "mango"; "grape"]
  /\ Denylist.errorLog s2 !! "enable" = Some "Failed to fetch word list: 404 Not Found"
  /\ (ofLength 5 ["apple"; "mango"; "grape"] = [] ->
        Denylist.failed g' = Denylist.failed g ++ ["enable"])
  /\ (ofLength 5 ["apple"; "mango"; "grape"] <> [] ->
        Denylist.failed g' = Denylist.failed g
        /\ Denylist.succeeded g' = Denylist.succeeded g ++ ["enable"]).
Proof.
  intros E g.
  apply (unreachable_source_falls_back
           E 5 "enable" Scenario.cached
           (snd (Denylist.fetchWordList E (Denylist.urlOf "enable") Scenario.cached))
           ["apple"; "mango"; "grape"] "Failed to fetch word list: 404 Not Found" g).
  - vm_compute. reflexivity.
  - discriminate.
  - vm_compute. reflexivity.
  - vm_compute. reflexivity.
Defined.

(** C9 as stated fails: the fallback does not keep the source out of
    [failedSources].  Here the cached list of "google_common" has no word
    of three letters; the source "enable", whose address answers 404,
    falls back to it and is reported as failed. *)
Lemma fallback_source_is_reported :
  let E := Scenario.world in
  Denylist.wordCache Scenario.started !! "google_common" = Some ["apple"; "mango"; "grape"]
  /\ fst (Denylist.fetchWordList E Denylist.ENABLE Scenario.started)
     = Thrown "Failed to fetch word list: 404 Not Found"
  /\ fst (Denylist.fetchWordListBySource E "enable" Scenario.started)
     = Returned ["apple"; "mango"; "grape"]
  /\ fst (Denylist.generateWordsFromMultipleSources
            E 3 ["scrabble"; "enable"] 100 Scenario.started)
     = Returned {| Denylist.words := ["eat"]; Denylist.failedSources := ["enable"] |}.
Proof. vm_compute. done. Qed.

(** ** The validator and the state of the object *)

Section Lifetime.

Import Denylist.

Lemma preloadWordCache_frame (E : Env) (s : State) :
  problemWords (preloadWordCache E s) = problemWords s
  /\ problemWordsLoaded (preloadWordCache E s) = problemWordsLoaded s.
Proof.
  unfold preloadWordCache.
  destruct (fetchWordList E GOOGLE_COMMON s) as [[words|message] s1] eqn:H1;
    apply fetchWordList_frame in H1 as (Hp & Hl & _); simpl; [done|].
  destruct (fetchWordList E ENABLE _) as [[words|message'] s2] eqn:H2;
    apply fetchWordList_frame in H2 as (Hp2 & Hl2 & _); simpl in *; split; congruence.
Qed.

Lemma drawWords_frame (E : Env) (fuel count : nat)
      (resultWords availableWords : list string) (s : State) :
  problemWords (snd (drawWords E fuel count resultWords availableWords s))
  = problemWords s
  /\ problemWordsLoaded (snd (drawWords E fuel count resultWords availableWords s))
     = problemWordsLoaded s.
Proof.
  revert resultWords availableWords s.
  induction fuel as [|fuel IH]; intros resultWords availableWords s; simpl; [done|].
  destruct (_ && _); [|done].
  destruct (IH (set_add (nth (random E (draws s) mod length availableWords)
                             availableWords "") resultWords)
               (splice1 (random E (draws s) mod length availableWords) availableWords)
               (with_draws (S (draws s)) s)) as [H1 H2].
  simpl in *. done.
Qed.

Lemma sample_frame (E : Env) (pool : list string) (count : nat) (s : State) :
  problemWords (snd (sample E pool count s)) = problemWords s
  /\ problemWordsLoaded (snd (sample E pool count s)) = problemWordsLoaded s.
Proof.
  unfold sample. destruct (length pool <=? count)%nat; [done|]. apply drawWords_frame.
Qed.

Lemma quiet_frame (E : Env) (s s' : State) :
  quiet E s s' ->
  problemWords s' = problemWords s /\ problemWordsLoaded s' = problemWordsLoaded s.
Proof.
  intros [url s0 | source s0 | s0 | length source count s0 Hl
          | length sources count s0 Hl | t s0 | stored s0].
  - destruct (fetchWordList E url s0) as [r s1] eqn:H.
    apply fetchWordList_frame in H. simpl. tauto.
  - destruct (fetchWordListBySource E source s0) as [r s1] eqn:H.
    apply fetchWordListBySource_frame in H. simpl. tauto.
  - apply preloadWordCache_frame.
  - unfold generateWords, withProblemWords. rewrite Hl.
    destruct (fetchWordListBySource E source s0) as [[wordsList|message] s1] eqn:H;
      apply fetchWordListBySource_frame in H as (Hp & Hl1 & _); simpl; [|split; congruence].
    destruct (_ =? 0)%nat; [simpl; split; congruence|].
    destruct (_ =? 0)%nat; [simpl; split; congruence|].
    destruct (sample E _ count s1) as [picked s2] eqn:Hs.
    pose proof (sample_frame E
      (List.filter (fun word => isValid (validate E s1 word)) (ofLength length wordsList))
      count s1) as [H1 H2].
    rewrite Hs in H1, H2. simpl in *. split; congruence.
  - unfold generateWordsFromMultipleSources, withProblemWords. rewrite Hl.
    destruct (_ =? 0)%nat; [simpl; split; congruence|].
    destruct (gather_fold E length sources
                {| allWords := []; failed := []; succeeded := [] |} s0)
      as (_ & _ & _ & Hp & Hl1).
    fold (gather E length sources s0) in Hp, Hl1.
    destruct (gather E length sources s0) as [g s1]. simpl in Hp, Hl1.
    destruct (_ =? 0)%nat.
    { destruct (_ =? _)%nat; simpl; split; congruence. }
    destruct (sample E _ count s1) as [picked s2] eqn:Hs.
    pose proof (sample_frame E
      (List.filter (fun word => isValid (validate E s1 word)) (allWords g))
      count s1) as [H1 H2].
    rewrite Hs in H1, H2. simpl in *. split; congruence.
  - done.
  - done.
Qed.

End Lifetime.

(** ** Loading the problem words *)

Section ProblemWords.

Import Denylist.

Lemma loaded_more_refl (s : State) : loaded_more [] 0 s s.
Proof. unfold loaded_more. rewrite app_nil_r, Nat.add_0_r. done. Qed.

Lemma loaded_more_trans (sent sent' : list string) (drawn drawn' : nat) (s s1 s2 : State) :
  loaded_more sent drawn s s1 -> loaded_more sent' drawn' s1 s2 ->
  loaded_more (sent ++ sent') (drawn + drawn') s s2.
Proof.
  intros (H1 & H2 & H3 & H4 & H5 & H6) (K1 & K2 & K3 & K4 & K5 & K6).
  unfold loaded_more. rewrite K5, H5, K6, H6, app_assoc, Nat.add_assoc.
  split; [by etrans|]. split; [congruence|]. split; [congruence|].
  split; [congruence|]. done.
Qed.

Lemma add_all_elem (words : list string) (set : gset string) (word : string) :
  word ∈ add_all words set <-> word ∈ set \/ word ∈ words.
Proof.
  unfold add_all. revert set. induction words as [|x words IH]; intros set; simpl.
  - rewrite elem_of_nil. tauto.
  - rewrite IH, elem_of_cons, elem_of_union, elem_of_singleton. tauto.
Qed.

Lemma randomBase_draws (E : Env) (i : nat) (base : list ascii) (s : State) :
  snd (randomBase E i base s) = with_draws (draws s + i) s.
Proof.
  revert base s. induction i as [|i IH]; intros base s; simpl.
  - rewrite Nat.add_0_r. by destruct s.
  - rewrite IH. simpl. unfold with_draws. simpl. f_equal. lia.
Qed.

Lemma addSample_more (E : Env) (suffix : string) (i : nat) (s : State) :
  loaded_more [] i s (addSample E suffix i s).
Proof.
  unfold addSample. pose proof (randomBase_draws E i [] s) as H.
  destruct (randomBase E i [] s) as [base s1]. simpl in H. subst s1.
  unfold loaded_more. simpl. rewrite app_nil_r. split; [set_solver|]. done.
Qed.

Lemma loaded_more_fold {A : Type} (f : State -> A -> State) (drawn : A -> nat)
      (xs : list A) (s : State) :
  (forall s x, loaded_more [] (drawn x) s (f s x)) ->
  loaded_more [] (list_sum (map drawn xs)) s (fold_left f xs s).
Proof.
  intros Hf. revert s. induction xs as [|x xs IH]; intros s; simpl.
  - apply loaded_more_refl.
  - apply (loaded_more_trans [] [] _ _ s (f s x)); [apply Hf | apply IH].
Qed.

Lemma addSuffixes_more (E : Env) (suffixes : list string) (lengths : list nat)
      (samples : nat) (s : State) :
  loaded_more []
    (list_sum (map (fun _ : string =>
       list_sum (map (fun i => list_sum (map (fun _ : nat => i) (seq 0 samples))) lengths))
       suffixes))
    s (addSuffixes E suffixes lengths samples s).
Proof.
  unfold addSuffixes.
  apply (loaded_more_fold _ (fun _ : string => _)). intros s1 suffix.
  apply (loaded_more_fold _ (fun i => list_sum (map (fun _ : nat => i) (seq 0 samples)))).
  intros s2 i.
  apply (loaded_more_fold _ (fun _ : nat => i)). intros s3 _.
  apply addSample_more.
Qed.

Lemma list_sum_const {A : Type} (k : nat) (xs : list A) :
  list_sum (map (fun _ => k) xs) = length xs * k.
Proof. induction xs as [|x xs IH]; simpl; [done | by rewrite IH]. Qed.

Lemma addSuffixes_drawn (E : Env) (suffixes : list string) (lengths : list nat)
      (samples drawn : nat) (s : State) :
  drawn = length suffixes * (samples * list_sum lengths) ->
  loaded_more [] drawn s (addSuffixes E suffixes lengths samples s).
Proof.
  intros ->. pose proof (addSuffixes_more E suffixes lengths samples s) as H.
  assert (list_sum (map (fun i => list_sum (map (fun _ : nat => i) (seq 0 samples))) lengths)
          = samples * list_sum lengths) as Hmid.
  { clear H. induction lengths as [|i lengths IH]; simpl; [lia|].
    rewrite IH, list_sum_const, length_seq. lia. }
  by rewrite Hmid, list_sum_const in H.
Qed.

Lemma addManualPatterns_more (E : Env) (s : State) :
  loaded_more [] 1548 s (addManualPatterns E s).
Proof.
  unfold addManualPatterns. cbv zeta.
  set (s1 := addSuffixes E _ [3; 4; 5; 6] 5 s).
  set (s2 := addSuffixes E _ [3; 4; 5] 3 s1).
  apply (loaded_more_trans [] [] 720 828 s s1); [apply addSuffixes_drawn; reflexivity|].
  apply (loaded_more_trans [] [] 468 360 s1 s2); apply addSuffixes_drawn; reflexivity.
Qed.

Lemma fetchWordList_more (E : Env) (url : string) (s : State) :
  exists sent, sent `sublist_of` [url]
               /\ loaded_more sent 0 s (snd (fetchWordList E url s)).
Proof.
  destruct (fetchWordList_cases E url s)
    as [(data & timestamp & _ & _ & Hhit) | Hmiss].
  - rewrite Hhit. exists []. split; [apply sublist_nil_l | apply loaded_more_refl].
  - rewrite Hmiss. exists [url]. split; [reflexivity|].
    destruct (download E url s) as [r s1] eqn:Hd.
    apply download_frame in Hd as (H1 & H2 & H3 & H4 & H5 & H6).
    unfold loaded_more. rewrite Nat.add_0_r. simpl snd.
    split; [by rewrite H1|]. done.
Qed.

Lemma with_problemWords_more (words : gset string) (s : State) :
  problemWords s ⊆ words -> loaded_more [] 0 s (with_problemWords words s).
Proof.
  intros H. unfold loaded_more. rewrite app_nil_r, Nat.add_0_r. done.
Qed.

Lemma loadSadSource_more (E : Env) (s : State) (entry : string * string) :
  exists sent, sent `sublist_of` [snd entry]
               /\ loaded_more sent 0 s (loadSadSource E s entry).
Proof.
  destruct (fetchWordList_more E (snd entry) s) as (sent & Hsub & Hmore).
  exists sent. split; [done|].
  unfold loadSadSource.
  destruct (fetchWordList E (snd entry) s) as [[words|message] s1]; [|exact Hmore].
  rewrite <- (app_nil_r sent). change 0 with (0 + 0).
  apply (loaded_more_trans sent [] 0 0 s s1); [exact Hmore|].
  apply with_problemWords_more. intros x Hx. apply add_all_elem. by left.
Qed.

Lemma loadSadSources_more (E : Env) (entries : list (string * string)) (s : State) :
  exists sent, sent `sublist_of` map snd entries
               /\ loaded_more sent 0 s (fold_left (loadSadSource E) entries s).
Proof.
  revert s. induction entries as [|entry entries IH]; intros s; simpl.
  - exists []. split; [done | apply loaded_more_refl].
  - destruct (loadSadSource_more E s entry) as (sent & Hsub & Hmore).
    destruct (IH (loadSadSource E s entry)) as (sent' & Hsub' & Hmore').
    exists (sent ++ sent'). split.
    + by apply (sublist_app sent [snd entry] sent' (map snd entries)).
    + by apply (loaded_more_trans sent sent' 0 0 s (loadSadSource E s entry)).
Qed.

Lemma loadProblemWords_more (E : Env) (s : State) :
  exists sent, sent `sublist_of` map snd SAD_SOURCES
               /\ loaded_more sent 1548 s
                     (addManualPatterns E (fold_left (loadSadSource E) SAD_SOURCES s)).
Proof.
  destruct (loadSadSources_more E SAD_SOURCES s) as (sent & Hsub & Hmore).
  exists sent. split; [exact Hsub|].
  rewrite <- (app_nil_r sent).
  exact (loaded_more_trans sent [] 0 1548 _ _ _ Hmore (addManualPatterns_more E _)).
Qed.

(** A load sets the flag and takes no word out of the set. *)
Lemma loadProblemWords_grows (E : Env) (s : State) :
  problemWordsLoaded (loadProblemWords E s) = true
  /\ problemWords s ⊆ problemWords (loadProblemWords E s).
Proof.
  destruct (loadProblemWords_more E s) as (sent & _ & H & _).
  unfold loadProblemWords. cbv zeta.
  generalize dependent (addManualPatterns E (fold_left (loadSadSource E) SAD_SOURCES s)).
  intros s1 H. split; [reflexivity | exact H].
Qed.

(** What a change of the two fields does to the result for a word, when
    the flag ends up set and no word has left the set. *)
Lemma validateWord_after_load
      (isProfane : ProfanityFilter) (loaded : bool) (before after : gset string)
      (word : string) :
  (loaded = true -> before ⊆ after) ->
  let checked := trim (toLowerCase word) in
  let old := validateWord isProfane loaded before word in
  let new := validateWord isProfane true after word in
  (checked ∉ after -> new = old)
  /\ (isValid old = true -> checked ∈ after ->
        new = rejected "Word is in the problematic words list")
  /\ (isValid new = true <-> isValid old = true /\ checked ∉ after).
Proof.
  intros Hmono. cbv zeta. unfold validateWord.
  do 6 (match goal with
        | |- context [if ?b then rejected _ else _] =>
            destruct b;
            [simpl; split; [done|]; split; [done|];
             split; [discriminate | by intros [? _]]|]
        end).
  set (rest := if isUKSpelling _ then _ else _).
  destruct (decide (trim (toLowerCase word) ∈ after)) as [Hin | Hout].
  - rewrite (bool_decide_eq_true_2 _ Hin). simpl.
    split; [done|]. split; [done|]. split; [discriminate | by intros [_ ?]].
  - rewrite (bool_decide_eq_false_2 _ Hout). simpl.
    assert (loaded && bool_decide (trim (toLowerCase word) ∈ before) = false) as ->.
    { destruct loaded; [|done]. simpl. apply bool_decide_eq_false_2.
      intros Hin. apply Hout. by apply Hmono. }
    split; [done|]. split; [done|]. tauto.
Qed.

End ProblemWords.

(** C6, as the program has it.  [validateWord] sends no request, draws no
    random number and changes no field (it gives back a result and no
    state); besides its argument it reads two fields of the object, the
    set of problem words and the flag that says the set is loaded.  As
    long as no load of the problem words runs (whatever is fetched,
    preloaded or generated meanwhile, and whatever time passes), two calls
    on the same word give the same result.  A load changes the result for
    a word only if the word, in the form the validator checks, is in the
    set of problem words after the load: a word that was valid is then
    rejected as a problem word.  No load makes a rejected word valid. *)
Theorem validateWord_between_loads
        (E : Env) (s s' : Denylist.State) (word : string) :
  Denylist.quietly E s s' ->
  Denylist.validate E s' word = Denylist.validate E s word
  /\ (let s1 := Denylist.loadProblemWords E s' in
      let checked := trim (toLowerCase word) in
      (checked ∉ Denylist.problemWords s1 ->
         Denylist.validate E s1 word = Denylist.validate E s word)
      /\ (isValid (Denylist.validate E s word) = true ->
          checked ∈ Denylist.problemWords s1 ->
          Denylist.validate E s1 word = rejected "Word is in the problematic words list")
      /\ (isValid (Denylist.validate E s1 word) = true <->
            isValid (Denylist.validate E s word) = true
            /\ checked ∉ Denylist.problemWords s1)).
Proof.
  intros Hquiet.
  assert (Denylist.validate E s' word = Denylist.validate E s word) as Hsame.
  { induction Hquiet as [s | s s1 s2 Hstep _ IH]; [done|].
    rewrite IH. apply quiet_frame in Hstep as [Hp Hl]. by apply validate_frame. }
  split; [exact Hsame|]. cbv zeta. rewrite <- Hsame.
  destruct (loadProblemWords_grows E s') as [Hflag Hgrows].
  unfold Denylist.validate. rewrite Hflag.
  apply validateWord_after_load. by intros _.
Qed.

Lemma validateWord_between_loads_witness :
  let E := Scenario.world in
  let s := Scenario.cached in
  let s' := snd (Denylist.generateWordsFromMultipleSources E 5 ["enable"; "scrabble"] 2
                   (Denylist.with_now 86400000 (Denylist.preloadWordCache E s))) in
  Denylist.validate E s' "mary" = Denylist.validate E s "mary"
  /\ (let s1 := Denylist.loadProblemWords E s' in
      let checked := trim (toLowerCase "mary") in
      (checked ∉ Denylist.problemWords s1 ->
         Denylist.validate E s1 "mary" = Denylist.validate E s "mary")
      /\ (isValid (Denylist.validate E s "mary") = true ->
          checked ∈ Denylist.problemWords s1 ->
          Denylist.validate E s1 "mary" = rejected "Word is in the problematic words list")
      /\ (isValid (Denylist.validate E s1 "mary") = true <->
            isValid (Denylist.validate E s "mary") = true
            /\ checked ∉ Denylist.problemWords s1)).
Proof.
  intros E s s'.
  apply (validateWord_between_loads E s s' "mary").
  eapply Denylist.quietly_step; [apply Denylist.quiet_preloadWordCache|].
  eapply Denylist.quietly_step; [apply (Denylist.quiet_clock E 86400000)|].
  eapply Denylist.quietly_step;
    [apply (Denylist.quiet_generateWordsFromMultipleSources E 5 ["enable"; "scrabble"] 2);
     reflexivity|].
  apply Denylist.quietly_refl.
Defined.

(** C6 as stated fails: "mary" is valid for the object just created, and
    is not once the problem words are loaded, the list of first names
    having it. *)
Lemma validateWord_changes_with_the_load :
  let E := Scenario.world in
  Denylist.validate E Scenario.created "mary" = accepted
  /\ Denylist.validate E Scenario.started "mary"
     = rejected "Word is in the problematic words list".
Proof. vm_compute. done. Qed.
